(** * melonJS runtime core: physics body, pointer and state manager

    A shallow embedding of three source files of the engine:
    - [src/physics/body.js]   (module [Body]),
    - the pointer event wrapper (module [Pointer]),
    - the state manager        (module [State]).

    Conventions of the embedding.
    - A JavaScript number that is finite is an exact rational ([num], the
      canonical rationals [Qc]); rounding of binary64, infinities and the
      negative zero are not represented.  [NaN] and [undefined] are separate
      constructors of [value] where the code can produce or receive them.
      Statements about velocities and positions put their hypotheses on
      the value the code computes (the product [friction * tick], not its
      factors) and give a position as the result of the additions the code
      performs, so that they do not rest on the arithmetic being exact;
      [Binary64] repeats the friction step on primitive floats, where a
      small friction is absorbed.
    - Module-level [let] variables and object fields become record fields and
      every function takes the record and returns the updated one.
    - A [throw] is the [Throw] constructor of [result].
    - Calls that leave the three files (host scheduler, viewport, audio,
      screen objects, user callbacks) are appended to an effect trace. *)

From Stdlib Require Import QArith Qcanon Qround Lqa ZArith String.
From Stdlib Require PrimFloat.
From stdpp Require Import base decidable option list gmap strings pretty.

Local Open Scope Qc_scope.

(** ** Numbers *)

Definition num : Type := Qc.

Definition of_Z (z : Z) : num := Q2Qc (inject_Z z).

#[global] Instance num_eq_dec : EqDecision num := Qc_eq_dec.

#[global] Instance num_lt_dec : RelDecision Qclt.
Proof.
  intros x y. destruct (Qclt_le_dec x y) as [H | H].
  - left. exact H.
  - right. apply Qcle_not_lt. exact H.
Defined.

#[global] Instance num_le_dec : RelDecision Qcle.
Proof.
  intros x y. destruct (Qclt_le_dec y x) as [H | H].
  - right. apply Qclt_not_le. exact H.
  - left. exact H.
Defined.

(** [Math.sign] on a finite number. *)
Definition sign (x : num) : num :=
  if decide (0 < x) then 1 else if decide (x < 0) then Q2Qc (-1) else 0.

(** [Math.min] and [Math.max] on finite numbers. *)
Definition num_min (x y : num) : num := if decide (x <= y) then x else y.
Definition num_max (x y : num) : num := if decide (x <= y) then y else x.

(** [a || b] on finite numbers: the only falsy finite number is 0. *)
Definition num_or (a b : num) : num := if decide (a = 0) then b else a.

(** Truncation toward zero, the first step of [ToInt32]. *)
Definition trunc (q : num) : Z := Z.quot (Qnum q) (Zpos (Qden q)).

(** [ToInt32]: reduction modulo 2^32 into the signed 32-bit range. *)
Definition toInt32 (z : Z) : Z :=
  let m := (z mod 2 ^ 32)%Z in
  if (2 ^ 31 <=? m)%Z then (m - 2 ^ 32)%Z else m.

(** [~~x] on a finite number. *)
Definition double_tilde (q : num) : num := of_Z (toInt32 (trunc q)).

(** ** JavaScript values that reach the modelled code *)

Inductive value : Type :=
  | Undefined
  | Null
  | NaN
  | Num (q : num)
  | Bool (b : bool)
  | Str (s : string).

#[global] Instance value_eq_dec : EqDecision value.
Proof. solve_decision. Defined.

(** Truthiness (ToBoolean). *)
Definition truthy (v : value) : bool :=
  match v with
  | Undefined | Null | NaN => false
  | Num q => if decide (q = 0) then false else true
  | Bool b => b
  | Str s => if decide (s = EmptyString) then false else true
  end.

(** [a || b] and [a && b]. *)
Definition js_or (a b : value) : value := if truthy a then a else b.
Definition js_and (a b : value) : value := if truthy a then b else a.

(** [typeof v !== "undefined"]. *)
Definition is_defined (v : value) : bool :=
  match v with Undefined => false | _ => true end.

(** A numeric property of a host record that may be absent: reading an absent
    property gives [undefined]. *)
Definition read (o : option num) : value :=
  match o with Some q => Num q | None => Undefined end.

(** [k * o.p] for a finite constant [k] and a numeric property that may be
    absent: ToNumber of [undefined] is [NaN]. *)
Definition scale_by (k : num) (o : option num) : value :=
  match o with
  | Some q => Num (k * q)
  | None => NaN
  end.

(** ** Exceptions *)

Inductive exn : Type :=
  | TypeError (what : string)
  | Error (message : string)
  | MeError (message : string).

Inductive result (A : Type) : Type :=
  | Ok (a : A)
  | Throw (e : exn).
Arguments Ok {A} a.
Arguments Throw {A} e.

Definition bind {A B : Type} (r : result A) (k : A -> result B) : result B :=
  match r with Ok a => k a | Throw e => Throw e end.

Notation "x <- r ;; k" := (bind r (fun x => k))
  (at level 100, r at next level, right associativity, only parsing).

(** ** Vectors and rectangles *)

Record Vector2d : Type := vec2 { vx : num; vy : num }.

#[global] Instance Vector2d_eq_dec : EqDecision Vector2d.
Proof. solve_decision. Defined.

Definition vadd (a b : Vector2d) : Vector2d := vec2 (vx a + vx b) (vy a + vy b).
Definition vsub (a b : Vector2d) : Vector2d := vec2 (vx a - vx b) (vy a - vy b).
Definition vscale (a : Vector2d) (k : num) : Vector2d := vec2 (vx a * k) (vy a * k).

Record Rect : Type := rect { rpos : Vector2d; rwidth : num; rheight : num }.

#[global] Instance Rect_eq_dec : EqDecision Rect.
Proof. solve_decision. Defined.

Definition rect_left (r : Rect) : num := vx (rpos r).
Definition rect_top (r : Rect) : num := vy (rpos r).
Definition rect_right (r : Rect) : num := vx (rpos r) + rwidth r.
Definition rect_bottom (r : Rect) : num := vy (rpos r) + rheight r.

(** Modelled from the spec: [me.Rect.union], whose source (shapes/rectangle)
    is absent.  The rectangle grows in place to the smallest axis-aligned
    rectangle that covers both itself and [r]. *)
Definition union (this r : Rect) : Rect :=
  let x1 := num_min (rect_left this) (rect_left r) in
  let y1 := num_min (rect_top this) (rect_top r) in
  rect (vec2 x1 y1)
       (num_max (rect_right this) (rect_right r) - x1)
       (num_max (rect_bottom this) (rect_bottom r) - y1).

(** Modelled from the spec: [me.Rect.resize], whose source is absent; the
    rectangle keeps its position and takes the given size. *)
Definition resize (this : Rect) (w h : num) : Rect := rect (rpos this) w h.

(** [this.pos.setV(v)] on a rectangle. *)
Definition setV (this : Rect) (v : Vector2d) : Rect :=
  rect v (rwidth this) (rheight this).

(** Modelled from the spec: [me.Math.clamp], whose source is absent; the
    value is brought into the interval [low, high]. *)
Definition clamp (val low high : num) : num :=
  if decide (val < low) then low
  else if decide (high < val) then high
  else val.

(** * The physics body ([src/physics/body.js]) *)

Module Body.

(** The collision-shape library the body consumes (shapes/rectangle,
    shapes/poly, shapes/ellipse and math/vector are outside the embedded
    files), as an interface.  Equality on [S] is object identity. *)
Class Shapes (S : Type) : Type := {
  shape_eq_dec :: EqDecision S;
  (** [shape.getBounds()] *)
  getBounds : S -> Rect;
  (** [shape.clone()] *)
  clone : S -> S;
  (** [shape instanceof me.Rect] *)
  isRect : S -> bool;
  (** [shape.toPolygon()] *)
  toPolygon : S -> S;
  (** [new me.Vector2d(x, y)]; [None] is an argument that is [undefined] *)
  new_Vector2d : option num -> option num -> Vector2d;
  (** [new me.Polygon(x, y, points)] *)
  new_Polygon : num -> num -> list Vector2d -> S;
  (** [new me.Ellipse(x, y, w, h)] *)
  new_Ellipse : num -> num -> num -> num -> S;
}.

(** Engine-wide settings read by the constructor. *)
Record Engine : Type := {
  sys_gravity : option num;     (* me.sys.gravity *)
  ALL_OBJECT : Z;               (* me.collision.types.ALL_OBJECT *)
  ENEMY_OBJECT : Z;             (* me.collision.types.ENEMY_OBJECT *)
}.

(** The object a body is attached to, as far as the body touches it. *)
Record Renderable : Type := {
  r_pos : Vector2d;
  r_width : num;
  r_height : num;
}.

(** An [onBodyUpdate] function, named by an identifier. *)
Definition Callback : Type := nat.

(** The Physics Editor documents accepted by [addShapesFromJSON], as typed
    data.  The code tells the two formats apart by the key [rigidBodies] and
    reads the flat one with [json[id]]: a flat document is taken to have no
    key [rigidBodies], and [entries] holds its own keys only, so a property
    that [json[id]] would find on [Object.prototype] (see [inherited_keys])
    is not in it. *)
Record PEShape : Type := { pe_shape : list num }.
Record Circle : Type := { c_cx : num; c_cy : num; c_r : num }.
Record RigidBody : Type := {
  rb_name : string;
  rb_origin : Vector2d;
  rb_polygons : list (list Vector2d);
  rb_circles : list Circle;
}.
Inductive JSON : Type :=
  | PhysicsEditor (entries : gmap string (list PEShape))
  | PhysicsBodyEditor (rigidBodies : list RigidBody).

Section WithShapes.
Context {S : Type} `{Shapes S}.

Record Body : Type := {
  self : Rect;                          (* the inherited me.Rect: pos, width, height *)
  ancestor : option Renderable;         (* [None] after destroy() *)
  shapes : list S;
  collisionMask : Z;
  collisionType : Z;
  vel : Vector2d;
  accel : Vector2d;
  friction : Vector2d;
  maxVel : Vector2d;
  bounce : num;
  gravity : num;
  falling : bool;
  jumping : bool;
  onBodyUpdate : option Callback;       (* [None]: undefined or null *)
  fired : list (Callback * Rect);       (* calls onBodyUpdate(this), oldest first *)
}.

Definition set_self (b : Body) (r : Rect) : Body :=
  {| self := r; ancestor := ancestor b; shapes := shapes b;
     collisionMask := collisionMask b; collisionType := collisionType b;
     vel := vel b; accel := accel b; friction := friction b; maxVel := maxVel b;
     bounce := bounce b; gravity := gravity b; falling := falling b;
     jumping := jumping b; onBodyUpdate := onBodyUpdate b; fired := fired b |}.

Definition set_ancestor (b : Body) (a : option Renderable) : Body :=
  {| self := self b; ancestor := a; shapes := shapes b;
     collisionMask := collisionMask b; collisionType := collisionType b;
     vel := vel b; accel := accel b; friction := friction b; maxVel := maxVel b;
     bounce := bounce b; gravity := gravity b; falling := falling b;
     jumping := jumping b; onBodyUpdate := onBodyUpdate b; fired := fired b |}.

Definition set_shapes (b : Body) (l : list S) : Body :=
  {| self := self b; ancestor := ancestor b; shapes := l;
     collisionMask := collisionMask b; collisionType := collisionType b;
     vel := vel b; accel := accel b; friction := friction b; maxVel := maxVel b;
     bounce := bounce b; gravity := gravity b; falling := falling b;
     jumping := jumping b; onBodyUpdate := onBodyUpdate b; fired := fired b |}.

Definition set_collisionMask (b : Body) (m : Z) : Body :=
  {| self := self b; ancestor := ancestor b; shapes := shapes b;
     collisionMask := m; collisionType := collisionType b;
     vel := vel b; accel := accel b; friction := friction b; maxVel := maxVel b;
     bounce := bounce b; gravity := gravity b; falling := falling b;
     jumping := jumping b; onBodyUpdate := onBodyUpdate b; fired := fired b |}.

Definition set_vel (b : Body) (v : Vector2d) : Body :=
  {| self := self b; ancestor := ancestor b; shapes := shapes b;
     collisionMask := collisionMask b; collisionType := collisionType b;
     vel := v; accel := accel b; friction := friction b; maxVel := maxVel b;
     bounce := bounce b; gravity := gravity b; falling := falling b;
     jumping := jumping b; onBodyUpdate := onBodyUpdate b; fired := fired b |}.

Definition set_accel (b : Body) (v : Vector2d) : Body :=
  {| self := self b; ancestor := ancestor b; shapes := shapes b;
     collisionMask := collisionMask b; collisionType := collisionType b;
     vel := vel b; accel := v; friction := friction b; maxVel := maxVel b;
     bounce := bounce b; gravity := gravity b; falling := falling b;
     jumping := jumping b; onBodyUpdate := onBodyUpdate b; fired := fired b |}.

Definition set_friction (b : Body) (v : Vector2d) : Body :=
  {| self := self b; ancestor := ancestor b; shapes := shapes b;
     collisionMask := collisionMask b; collisionType := collisionType b;
     vel := vel b; accel := accel b; friction := v; maxVel := maxVel b;
     bounce := bounce b; gravity := gravity b; falling := falling b;
     jumping := jumping b; onBodyUpdate := onBodyUpdate b; fired := fired b |}.

Definition set_maxVel (b : Body) (v : Vector2d) : Body :=
  {| self := self b; ancestor := ancestor b; shapes := shapes b;
     collisionMask := collisionMask b; collisionType := collisionType b;
     vel := vel b; accel := accel b; friction := friction b; maxVel := v;
     bounce := bounce b; gravity := gravity b; falling := falling b;
     jumping := jumping b; onBodyUpdate := onBodyUpdate b; fired := fired b |}.

Definition set_flags (b : Body) (f j : bool) : Body :=
  {| self := self b; ancestor := ancestor b; shapes := shapes b;
     collisionMask := collisionMask b; collisionType := collisionType b;
     vel := vel b; accel := accel b; friction := friction b; maxVel := maxVel b;
     bounce := bounce b; gravity := gravity b; falling := f;
     jumping := j; onBodyUpdate := onBodyUpdate b; fired := fired b |}.

Definition set_onBodyUpdate (b : Body) (c : option Callback) : Body :=
  {| self := self b; ancestor := ancestor b; shapes := shapes b;
     collisionMask := collisionMask b; collisionType := collisionType b;
     vel := vel b; accel := accel b; friction := friction b; maxVel := maxVel b;
     bounce := bounce b; gravity := gravity b; falling := falling b;
     jumping := jumping b; onBodyUpdate := c; fired := fired b |}.

Definition set_fired (b : Body) (l : list (Callback * Rect)) : Body :=
  {| self := self b; ancestor := ancestor b; shapes := shapes b;
     collisionMask := collisionMask b; collisionType := collisionType b;
     vel := vel b; accel := accel b; friction := friction b; maxVel := maxVel b;
     bounce := bounce b; gravity := gravity b; falling := falling b;
     jumping := jumping b; onBodyUpdate := onBodyUpdate b; fired := l |}.

(** [new me.Body(parent, shapes, onBodyUpdate)] up to the point where the
    initial shapes are parsed. *)
Definition fresh (E : Engine) (parent : Renderable)
    (onBodyUpdate : option Callback) : Body :=
  {| self := rect (vec2 0 0) (r_width parent) (r_height parent);
     ancestor := Some parent;
     shapes := [];
     collisionMask := ALL_OBJECT E;
     collisionType := ENEMY_OBJECT E;
     vel := vec2 0 0;
     accel := vec2 0 0;
     friction := vec2 0 0;
     bounce := 0;
     maxVel := vec2 (of_Z 1000) (of_Z 1000);
     gravity := match sys_gravity E with Some g => g | None => Q2Qc 0.98 end;
     falling := false;
     jumping := false;
     onBodyUpdate := onBodyUpdate;
     fired := [] |}.

(** [updateBounds()] *)
Definition updateBounds (b : Body) : Body :=
  let b1 :=
    match shapes b with
    | [] => b
    | s0 :: rest =>
        let _bounds := getBounds s0 in
        fold_left (fun acc s => set_self acc (union (self acc) (getBounds s)))
                  rest
                  (set_self b (resize (setV (self b) (rpos _bounds))
                                      (rwidth _bounds) (rheight _bounds)))
    end in
  match onBodyUpdate b1 with
  | Some f => set_fired b1 (fired b1 ++ [(f, self b1)])
  | None => b1
  end.

(** [addShape(shape, batchInsert)]: the new body and the returned length. *)
Definition addShape (shape : S) (batchInsert : value) (b : Body) : Body * nat :=
  let b1 := set_shapes b (shapes b ++ [if isRect shape then toPolygon shape else shape]) in
  let b2 := if decide (batchInsert = Bool true) then b1 else updateBounds b1 in
  (b2, length (shapes b2)).

(** The constructor: every initial shape is cloned and batch-inserted, then
    the bounds are computed once; without a shape list nothing is added. *)
Definition constructor (E : Engine) (parent : Renderable)
    (shapes : option (list S)) (onBodyUpdate : option Callback) : Body :=
  let b := fresh E parent onBodyUpdate in
  match shapes with
  | None => b
  | Some l =>
      updateBounds
        (fold_left (fun acc s => fst (addShape (clone s) (Bool true) acc)) l b)
  end.

(** The points of a flattened coordinate array, read two entries at a time;
    an odd last entry has no partner. *)
Fixpoint points_of_flat (l : list num) : list Vector2d :=
  match l with
  | [] => []
  | [x] => [new_Vector2d (Some x) None]
  | x :: y :: t => new_Vector2d (Some x) (Some y) :: points_of_flat t
  end.

(** The last rigid body named [id], as the [forEach] without exit leaves it. *)
Definition find_rigidBody (id : string) (l : list RigidBody) : option RigidBody :=
  fold_left (fun data shape => if decide (rb_name shape = id) then Some shape else data)
            l None.

Definition missing_identifier (id : string) : exn :=
  Error ("me.Body: Identifier (" ++ id ++ ") undefined for the given PhysicsEditor JSON object)").

(** [addShapesFromJSON(json, id, scale)] *)
Definition addShapesFromJSON (json : JSON) (id : string) (scale : option num)
    (b : Body) : Body * result nat :=
  (* scale = scale || 1 *)
  let scale := match scale with Some k => num_or k 1 | None => 1 end in
  let filled :=
    match json with
    | PhysicsEditor entries =>
        match entries !! id with
        | None => Throw (missing_identifier id)
        | Some data =>
            Ok (fold_left
                  (fun acc d =>
                     fst (addShape (new_Polygon 0 0 (points_of_flat (pe_shape d)))
                                   (Bool true) acc))
                  data b)
        end
    | PhysicsBodyEditor rigidBodies =>
        match find_rigidBody id rigidBodies with
        | None => Throw (missing_identifier id)
        | Some data =>
            let b0 :=
              set_self b
                (setV (self b)
                      (vscale (vec2 (vx (rb_origin data)) (1 - vy (rb_origin data))) scale)) in
            let b1 :=
              fold_left
                (fun acc poly =>
                   let points :=
                     map (fun point =>
                            vscale (new_Vector2d (Some (vx point)) (Some (1 - vy point))) scale)
                         poly in
                   fst (addShape (new_Polygon 0 0 points) (Bool true) acc))
                (rb_polygons data) b0 in
            Ok (fold_left
                  (fun acc circle =>
                     fst (addShape
                            (new_Ellipse (c_cx circle * scale)
                                         ((1 - c_cy circle) * scale)
                                         (c_r circle * of_Z 2 * scale)
                                         (c_r circle * of_Z 2 * scale))
                            (Bool true) acc))
                  (rb_circles data) b1)
        end
    end in
  match filled with
  | Throw e => (b, Throw e)
  | Ok b1 => let b2 := updateBounds b1 in (b2, Ok (length (shapes b2)))
  end.

(** [this.shapes[index || 0]]; [None] is a call without index.  An array
    has an element only at an index that is a natural number below its
    length. *)
Definition getShape (index : option num) (b : Body) : option S :=
  let i := match index with Some q => num_or q 0 | None => 0 end in
  if decide (Qden i = 1%positive /\ (0 <= Qnum i)%Z)
  then shapes b !! Z.to_nat (Qnum i)
  else None.

(** Modelled from the spec: [me.utils.array.remove], whose source is absent;
    a stable removal by identity of the first occurrence, and a removal of
    nothing when the object is not in the array. *)
Fixpoint array_remove (l : list S) (o : S) : list S :=
  match l with
  | [] => []
  | x :: t => if decide (x = o) then t else x :: array_remove t o
  end.

(** [removeShape(shape)]; [None] is a call with [undefined]. *)
Definition removeShape (shape : option S) (b : Body) : Body * nat :=
  let b1 := match shape with
            | Some o => set_shapes b (array_remove (shapes b) o)
            | None => b
            end in
  let b2 := updateBounds b1 in
  (b2, length (shapes b2)).

(** [removeShapeAt(index)] *)
Definition removeShapeAt (index : option num) (b : Body) : Body * nat :=
  removeShape (getShape index b) b.

(** [setCollisionMask(bitmask)] *)
Definition setCollisionMask (bitmask : Z) (b : Body) : Body :=
  set_collisionMask b bitmask.

(** [respondToCollision(response)], given [response.overlapV]. *)
Definition respondToCollision (overlap : Vector2d) (b : Body) : Body * result unit :=
  match ancestor b with
  | None => (b, Throw (TypeError "this.ancestor is null"))
  | Some a =>
      (* Move out of the other object shape *)
      let b := set_ancestor b
                 (Some {| r_pos := vsub (r_pos a) overlap;
                          r_width := r_width a; r_height := r_height a |}) in
      (* adjust velocity *)
      let b :=
        if decide (vx overlap <> 0) then
          let x := num_or (double_tilde (Q2Qc 0.5 + vx (vel b) - vx overlap)) 0 in
          let x := if decide (0 < bounce b) then x * - bounce b else x in
          set_vel b (vec2 x (vy (vel b)))
        else b in
      let b :=
        if decide (vy overlap <> 0) then
          let y := num_or (double_tilde (Q2Qc 0.5 + vy (vel b) - vy overlap)) 0 in
          let y := if decide (0 < bounce b) then y * - bounce b else y in
          let b := set_vel b (vec2 (vx (vel b)) y) in
          (* cancel the falling an jumping flags if necessary *)
          let dir := num_or (sign (gravity b)) 1 in
          set_flags b (bool_decide (dir <= vy overlap))
                      (bool_decide (vy overlap <= - dir))
        else b in
      (b, Ok tt)
  end.

(** [setMaxVelocity(x, y)] *)
Definition setMaxVelocity (x y : num) (b : Body) : Body :=
  set_maxVel b (vec2 x y).

(** [setVelocity(x, y)] *)
Definition setVelocity (x y : num) (b : Body) : Body :=
  let b := set_accel b (vec2 (if decide (x <> 0) then x else vx (accel b)) (vy (accel b))) in
  let b := set_accel b (vec2 (vx (accel b)) (if decide (y <> 0) then y else vy (accel b))) in
  (* limit by default to the same max value *)
  setMaxVelocity x y b.

(** [setFriction(x, y)] *)
Definition setFriction (x y : num) (b : Body) : Body :=
  set_friction b (vec2 (num_or x 0) (num_or y 0)).

(** [applyFriction(vel)], with [me.timer.tick] as [tick]. *)
Definition applyFriction (tick : num) (b : Body) (vel : Vector2d) : Vector2d :=
  let fx := vx (friction b) * tick in
  let nx := vx vel + fx in
  let x := vx vel - fx in
  let fy := vy (friction b) * tick in
  let ny := vy vel + fy in
  let y := vy vel - fy in
  vec2 (if decide (nx < 0) then nx else if decide (0 < x) then x else 0)
      (if decide (ny < 0) then ny else if decide (0 < y) then y else 0).

(** [computeVelocity(vel)], called on [this.vel]: the velocity is updated in
    place together with the two flags. *)
Definition computeVelocity (tick : num) (b : Body) : Body :=
  (* apply gravity (if any) *)
  let b :=
    if decide (gravity b <> 0) then
      let b := set_vel b (vec2 (vx (vel b)) (vy (vel b) + gravity b * tick)) in
      (* check if falling / jumping *)
      let f := bool_decide (0 < vy (vel b) * sign (gravity b)) in
      set_flags b f (if f then false else jumping b)
    else b in
  (* apply friction *)
  let b :=
    if decide (vx (friction b) <> 0 \/ vy (friction b) <> 0)
    then set_vel b (applyFriction tick b (vel b))
    else b in
  (* cap velocity *)
  let b :=
    if decide (vy (vel b) <> 0)
    then set_vel b (vec2 (vx (vel b)) (clamp (vy (vel b)) (- vy (maxVel b)) (vy (maxVel b))))
    else b in
  if decide (vx (vel b) <> 0)
  then set_vel b (vec2 (clamp (vx (vel b)) (- vx (maxVel b)) (vx (maxVel b))) (vy (vel b)))
  else b.

(** [update(dt)]: the body after the call, and what the call returned or
    threw.  The velocity is computed before the ancestor is dereferenced. *)
Definition update (tick : num) (dt : value) (b : Body) : Body * result bool :=
  (* update the velocity *)
  let b := computeVelocity tick b in
  (* update the body ancestor position *)
  match ancestor b with
  | None => (b, Throw (TypeError "this.ancestor is null"))
  | Some a =>
      let b := set_ancestor b
                 (Some {| r_pos := vadd (r_pos a) (vel b);
                          r_width := r_width a; r_height := r_height a |}) in
      (* returns true if vel is different from 0 *)
      (b, Ok (bool_decide (vx (vel b) <> 0 \/ vy (vel b) <> 0)))
  end.

(** [destroy()] *)
Definition destroy (b : Body) : Body :=
  set_shapes (set_ancestor (set_onBodyUpdate b None) None) [].

(** The body after [update] has been called once for every tick of a list,
    in order. *)
Definition updates (ticks : list num) (b : Body) : Body :=
  fold_left (fun acc tick => fst (update tick Undefined acc)) ticks b.

End WithShapes.
Arguments Body S : clear implicits.

End Body.

(** * The pointer (input event wrapper) *)

Module Pointer.

(** A host input event, as far as [setEvent] reads it; an absent property is
    [None]. *)
Record Event : Type := {
  e_type : string;
  e_isPointerEvent : bool;        (* event instanceof window.PointerEvent *)
  e_button : option num;
  e_isPrimary : option bool;
  e_width : option num;
  e_height : option num;
  e_radiusX : option num;
  e_radiusY : option num;
  e_deltaX : option num;
  e_wheelDelta : option num;
  e_wheelDeltaX : option num;
}.

(** The engine services [setEvent] calls. *)
Record Host : Type := {
  device_PointerEvent : bool;                           (* me.device.PointerEvent *)
  globalToLocal : value -> value -> value * value;      (* me.input.globalToLocal *)
  localToWorld : value -> value -> value * value;       (* me.game.viewport.localToWorld *)
}.

Record Pointer : Type := {
  pos : value * value;            (* inherited me.Rect *)
  width : value;
  height : value;
  event : option Event;           (* [None]: undefined *)
  type : value;
  button : value;
  isPrimary : value;
  clientX : value;
  clientY : value;
  gameX : value;
  gameY : value;
  gameScreenX : value;
  gameScreenY : value;
  gameWorldX : value;
  gameWorldY : value;
  gameLocalX : value;
  gameLocalY : value;
  pointerId : value;
  isNormalized : value;
  deltaMode : value;
  deltaX : value;
  deltaY : value;
}.

(** [new me.Pointer(x, y, w, h)] *)
Definition constructor (x y w h : value) : Pointer :=
  {| pos := (js_or x (Num 0), js_or y (Num 0));
     width := js_or w (Num 1);
     height := js_or h (Num 1);
     event := None;
     type := Undefined;
     button := Num 0;
     isPrimary := Bool false;
     clientX := Undefined;
     clientY := Undefined;
     gameX := Undefined;
     gameY := Undefined;
     gameScreenX := Undefined;
     gameScreenY := Undefined;
     gameWorldX := Undefined;
     gameWorldY := Undefined;
     gameLocalX := Undefined;
     gameLocalY := Undefined;
     pointerId := Undefined;
     isNormalized := Undefined;
     deltaMode := Undefined;
     deltaX := Undefined;
     deltaY := Undefined |}.

(** The scroll unit, [- 1 / 40]. *)
Definition wheel_unit : num := - 1 / Q2Qc 40.

(** [setEvent(event, clientX, clientY, pointerId)] *)
Definition setEvent (host : Host) (event : Event) (clientX clientY pointerId : value)
    (this : Pointer) : Pointer :=
  (* translate to local coordinates *)
  let pos := globalToLocal host clientX clientY in
  (* true if not originally a pointer event *)
  let isNormalized :=
    negb (device_PointerEvent host)
    || (device_PointerEvent host && negb (e_isPointerEvent event)) in
  let wheel := bool_decide (e_type event = "wheel"%string) in
  let deltaX0 := if wheel then read (e_deltaX event) else deltaX this in
  (* get the current screen to world offset *)
  let viewportOffset := localToWorld host (fst pos) (snd pos) in
  (* get the pointer size *)
  let size :=
    if negb isNormalized then
      (* native PointerEvent *)
      (read (e_width event), read (e_height event))
    else
      match e_radiusX event with
      | Some rx =>
          (* TouchEvent *)
          (Num (rx * Q2Qc 2), scale_by (Q2Qc 2) (e_radiusY event))
      | None => (Num 1, Num 1)
      end in
  {| pos := pos;
     (* resize the pointer object accordingly *)
     width := fst size;
     height := snd size;
     event := Some event;
     type := Str (e_type event);
     (* in case of touch events, button is not defined *)
     button := js_or (read (e_button event)) (Num 0);
     isPrimary := match e_isPrimary event with Some p => Bool p | None => Bool true end;
     clientX := js_or clientX (Num 0);
     clientY := js_or clientY (Num 0);
     gameX := gameX this;
     gameY := gameY this;
     gameScreenX := fst pos;
     gameScreenY := snd pos;
     gameWorldX := fst viewportOffset;
     gameWorldY := snd viewportOffset;
     gameLocalX := gameLocalX this;
     gameLocalY := gameLocalY this;
     (* could be 0, so test if defined *)
     pointerId := if is_defined pointerId then pointerId else Num 1;
     isNormalized := Bool isNormalized;
     deltaMode := if wheel then Num 1 else deltaMode this;
     deltaX := if wheel && truthy (read (e_wheelDeltaX event))
               then scale_by wheel_unit (e_wheelDeltaX event)
               else deltaX0;
     deltaY := if wheel then scale_by wheel_unit (e_wheelDelta event) else deltaY this |}.

End Pointer.

(** * The state manager *)

Module State.

(** A screen object ([me.ScreenObject] instance), named by an identifier. *)
Definition Screen : Type := nat.

(** A user callback ([onPause], [onResume], [onStop], [onRestart]). *)
Definition Callback : Type := nat.

(** What a caller may pass to [set]: a screen object, or anything else, of
    which only the string conversion is read. *)
Inductive candidate : Type :=
  | ScreenObject (so : Screen)
  | NotAScreen (printed : string).

(** The lifecycle channels of [me.event]. *)
Inductive channel : Type := STATE_STOP | STATE_PAUSE | STATE_RESTART | STATE_RESUME.

(** Calls that leave the module, in the order they are made. *)
Inductive effect : Type :=
  | TimerReset                                   (* me.timer.reset() *)
  | RequestAnimationFrame (id : positive)        (* window.requestAnimationFrame, with the id it returned *)
  | CancelAnimationFrame (id : Z)                (* window.cancelAnimationFrame(id) *)
  | GameUpdate (time : num)                      (* me.game.update(time) *)
  | GameDraw                                     (* me.game.draw() *)
  | Repaint                                      (* me.game.repaint() *)
  | ScreenDestroy (so : Screen)                  (* screen.destroy() *)
  | ScreenReset (so : Screen) (args : list value) (* screen.reset(...args) *)
  | FadeIn (color duration : value) (state : Z)  (* viewport.fadeIn(color, duration, cb), cb switching to state *)
  | FadeOut (color duration : value)             (* viewport.fadeOut(color, duration) *)
  | PauseTrack                                   (* me.audio.pauseTrack() *)
  | ResumeTrack                                  (* me.audio.resumeTrack() *)
  | Publish (c : channel) (args : list num)      (* me.event.publish(c, args) *)
  | Invoke (f : Callback).                       (* a user callback *)

Record entry : Type := {
  screen : Screen;
  transition : bool;
}.

Record fade : Type := {
  color : value;
  duration : value;
}.

(** The module-level variables, followed by the part of the host they act
    on. *)
Record manager : Type := {
  _state : Z;
  _animFrameId : Z;
  _isPaused : bool;
  _screenObject : gmap Z entry;
  _fade : fade;
  _onSwitchComplete : bool;            (* [false]: null; [true]: the closure set by [change] *)
  _extraArgs : option (list value);    (* [None]: null *)
  _pauseTime : num;
  onPause : option Callback;
  onResume : option Callback;
  onStop : option Callback;
  onRestart : option Callback;
  (* host *)
  trace : list effect;                 (* oldest first *)
  deferred : list Z;                   (* calls of _switchState waiting to run, oldest first *)
  fading : list Z;                     (* fadeIn completions waiting to run, oldest first *)
  next_frame : positive;               (* the next id requestAnimationFrame hands out *)
}.

Definition LOADING : Z := 0.
Definition MENU : Z := 1.
Definition READY : Z := 2.
Definition PLAY : Z := 3.
Definition GAMEOVER : Z := 4.
Definition GAME_END : Z := 5.
Definition SCORE : Z := 6.
Definition CREDITS : Z := 7.
Definition SETTINGS : Z := 8.
Definition USER : Z := 100.

(** The module as it is loaded. *)
Definition initial : manager :=
  {| _state := -1;
     _animFrameId := -1;
     _isPaused := false;
     _screenObject := ∅;
     _fade := {| color := Str ""; duration := Num 0 |};
     _onSwitchComplete := false;
     _extraArgs := None;
     _pauseTime := 0;
     onPause := None;
     onResume := None;
     onStop := None;
     onRestart := None;
     trace := [];
     deferred := [];
     fading := [];
     next_frame := 1%positive |}.

Definition set_state (m : manager) (s : Z) : manager :=
  let 'Build_manager _ af pa reg fd osc ea pt cp cr cs ct tr df fg nf := m in
  Build_manager (s) af pa reg fd osc ea pt cp cr cs ct tr df fg nf.

Definition set_animFrameId (m : manager) (id : Z) : manager :=
  let 'Build_manager st _ pa reg fd osc ea pt cp cr cs ct tr df fg nf := m in
  Build_manager st (id) pa reg fd osc ea pt cp cr cs ct tr df fg nf.

Definition set_isPaused (m : manager) (p : bool) : manager :=
  let 'Build_manager st af _ reg fd osc ea pt cp cr cs ct tr df fg nf := m in
  Build_manager st af (p) reg fd osc ea pt cp cr cs ct tr df fg nf.

Definition set_screenObject (m : manager) (r : gmap Z entry) : manager :=
  let 'Build_manager st af pa _ fd osc ea pt cp cr cs ct tr df fg nf := m in
  Build_manager st af pa (r) fd osc ea pt cp cr cs ct tr df fg nf.

Definition set_fade (m : manager) (f : fade) : manager :=
  let 'Build_manager st af pa reg _ osc ea pt cp cr cs ct tr df fg nf := m in
  Build_manager st af pa reg (f) osc ea pt cp cr cs ct tr df fg nf.

Definition set_onSwitchComplete (m : manager) (c : bool) : manager :=
  let 'Build_manager st af pa reg fd _ ea pt cp cr cs ct tr df fg nf := m in
  Build_manager st af pa reg fd (c) ea pt cp cr cs ct tr df fg nf.

Definition set_extraArgs (m : manager) (a : option (list value)) : manager :=
  let 'Build_manager st af pa reg fd osc _ pt cp cr cs ct tr df fg nf := m in
  Build_manager st af pa reg fd osc (a) pt cp cr cs ct tr df fg nf.

Definition set_pauseTime (m : manager) (t : num) : manager :=
  let 'Build_manager st af pa reg fd osc ea _ cp cr cs ct tr df fg nf := m in
  Build_manager st af pa reg fd osc ea (t) cp cr cs ct tr df fg nf.

Definition set_callbacks (m : manager) (p r s t : option Callback) : manager :=
  let 'Build_manager st af pa reg fd osc ea pt _ _ _ _ tr df fg nf := m in
  Build_manager st af pa reg fd osc ea pt (p) (r) (s) (t) tr df fg nf.

Definition set_deferred (m : manager) (l : list Z) : manager :=
  let 'Build_manager st af pa reg fd osc ea pt cp cr cs ct tr _ fg nf := m in
  Build_manager st af pa reg fd osc ea pt cp cr cs ct tr (l) fg nf.

Definition set_fading (m : manager) (l : list Z) : manager :=
  let 'Build_manager st af pa reg fd osc ea pt cp cr cs ct tr df _ nf := m in
  Build_manager st af pa reg fd osc ea pt cp cr cs ct tr df (l) nf.

Definition set_next_frame (m : manager) (p : positive) : manager :=
  let 'Build_manager st af pa reg fd osc ea pt cp cr cs ct tr df fg _ := m in
  Build_manager st af pa reg fd osc ea pt cp cr cs ct tr df fg (p).

(** One more call that leaves the module. *)
Definition emit (m : manager) (e : effect) : manager :=
  let 'Build_manager st af pa reg fd osc ea pt cp cr cs ct tr df fg nf := m in
  Build_manager st af pa reg fd osc ea pt cp cr cs ct (tr ++ [e]) df fg nf.

(** [window.requestAnimationFrame(_renderFrame)]: the manager after the
    call and the id the host returned. *)
Definition requestAnimationFrame (m : manager) : manager * Z :=
  let id := next_frame m in
  (set_next_frame (emit m (RequestAnimationFrame id)) (Pos.succ id), Zpos id).

(** Modelled from the spec: [me.utils.function.defer], whose source is
    absent; the call of [_switchState] is queued and runs after the current
    frame has finished. *)
Definition defer_switchState (state : Z) (m : manager) : manager :=
  set_deferred m (deferred m ++ [state]).

(** Modelled from the spec: [me.game.viewport.fadeIn], whose source is
    absent; the fade is started and its completion callback, which defers
    the switch to [state], runs once the fade is over. *)
Definition viewport_fadeIn (c d : value) (state : Z) (m : manager) : manager :=
  set_fading (emit m (FadeIn c d state)) (fading m ++ [state]).

Definition _startRunLoop (m : manager) : manager :=
  (* ensure nothing is running first and in valid state *)
  if decide (_animFrameId m = (-1)%Z /\ _state m <> (-1)%Z) then
    (* reset the timer *)
    let m := emit m TimerReset in
    (* start the main loop *)
    let '(m, id) := requestAnimationFrame m in
    set_animFrameId m id
  else m.

Definition _resumeRunLoop (m : manager) : manager :=
  (* ensure game is actually paused and in valid state *)
  if decide (_isPaused m = true /\ _state m <> (-1)%Z) then
    set_isPaused (emit m TimerReset) false
  else m.

Definition _pauseRunLoop (m : manager) : manager :=
  set_isPaused m true.

Definition _renderFrame (time : num) (m : manager) : manager :=
  (* update all game objects *)
  let m := emit m (GameUpdate time) in
  (* render all game objects *)
  let m := emit m GameDraw in
  (* schedule the next frame update *)
  if decide (_animFrameId m <> (-1)%Z) then
    let '(m, id) := requestAnimationFrame m in
    set_animFrameId m id
  else m.

Definition _stopRunLoop (m : manager) : manager :=
  (* cancel any previous animationRequestFrame *)
  set_animFrameId (emit m (CancelAnimationFrame (_animFrameId m))) (-1).

(** The closure [change] stores in [_onSwitchComplete]; it reads [_fade]
    when it runs. *)
Definition onSwitchComplete_closure (m : manager) : manager :=
  emit m (FadeOut (color (_fade m)) (duration (_fade m))).

Definition _switchState (state : Z) (m : manager) : manager :=
  (* clear previous interval if any *)
  let m := _stopRunLoop m in
  (* call the screen object destroy method *)
  let m := match _screenObject m !! _state m with
           | Some e => emit m (ScreenDestroy (screen e))
           | None => m
           end in
  match _screenObject m !! state with
  | Some e =>
      (* set the global variable *)
      let m := set_state m state in
      (* call the reset function with _extraArgs as arguments *)
      let m := emit m (ScreenReset (screen e) (default [] (_extraArgs m))) in
      (* and start the main loop of the new requested state *)
      let m := _startRunLoop m in
      (* execute callback if defined *)
      let m := if _onSwitchComplete m then onSwitchComplete_closure m else m in
      (* force repaint *)
      emit m Repaint
  | None => m
  end.

Definition isRunning (m : manager) : bool :=
  bool_decide (_animFrameId m <> (-1)%Z).

Definition isPaused (m : manager) : bool :=
  _isPaused m.

Definition isCurrent (state : Z) (m : manager) : bool :=
  bool_decide (_state m = state).

(** A user callback is called if it is a function. *)
Definition call_if_function (f : option Callback) (m : manager) : manager :=
  match f with Some c => emit m (Invoke c) | None => m end.

(** [stop(music)], with the value of [window.performance.now()]. *)
Definition stop (music : value) (now : num) (m : manager) : manager :=
  (* only stop when we are not loading stuff *)
  if decide (_state m <> LOADING /\ isRunning m = true) then
    (* stop the main loop *)
    let m := _stopRunLoop m in
    (* current music stop *)
    let m := if decide (music = Bool true) then emit m PauseTrack else m in
    (* store time when stopped *)
    let m := set_pauseTime m now in
    (* publish the stop notification *)
    let m := emit m (Publish STATE_STOP []) in
    call_if_function (onStop m) m
  else m.

(** [pause(music)] *)
Definition pause (music : value) (now : num) (m : manager) : manager :=
  (* only pause when we are not loading stuff *)
  if decide (_state m <> LOADING /\ isPaused m = false) then
    (* stop the main loop *)
    let m := _pauseRunLoop m in
    (* current music stop *)
    let m := if decide (music = Bool true) then emit m PauseTrack else m in
    (* store time when paused *)
    let m := set_pauseTime m now in
    (* publish the pause event *)
    let m := emit m (Publish STATE_PAUSE []) in
    call_if_function (onPause m) m
  else m.

(** [restart(music)] *)
Definition restart (music : value) (now : num) (m : manager) : manager :=
  if negb (isRunning m) then
    (* restart the main loop *)
    let m := _startRunLoop m in
    (* current music stop *)
    let m := if decide (music = Bool true) then emit m ResumeTrack else m in
    (* calculate the elpased time *)
    let m := set_pauseTime m (now - _pauseTime m) in
    (* force repaint *)
    let m := emit m Repaint in
    (* publish the restart notification *)
    let m := emit m (Publish STATE_RESTART [_pauseTime m]) in
    call_if_function (onRestart m) m
  else m.

(** [resume(music)] *)
Definition resume (music : value) (now : num) (m : manager) : manager :=
  if isPaused m then
    (* resume the main loop *)
    let m := _resumeRunLoop m in
    (* current music stop *)
    let m := if decide (music = Bool true) then emit m ResumeTrack else m in
    (* calculate the elpased time *)
    let m := set_pauseTime m (now - _pauseTime m) in
    (* publish the resume event *)
    let m := emit m (Publish STATE_RESUME [_pauseTime m]) in
    call_if_function (onResume m) m
  else m.

(** [set(state, so)] *)
Definition set (state : Z) (so : candidate) (m : manager) : manager * result unit :=
  match so with
  | NotAScreen printed =>
      (m, Throw (MeError (printed ++ " is not an instance of me.ScreenObject")))
  | ScreenObject so =>
      (set_screenObject m (<[state := {| screen := so; transition := true |}]> (_screenObject m)),
       Ok tt)
  end.

(** [init()], with the screen [new me.DefaultLoadingScreen()] builds. *)
Definition init (loading : Screen) (m : manager) : manager * result unit :=
  (* set the embedded loading screen *)
  set LOADING (ScreenObject loading) m.

(** [current()] *)
Definition current (m : manager) : result Screen :=
  match _screenObject m !! _state m with
  | Some e => Ok (screen e)
  | None => Throw (TypeError "_screenObject[_state] is undefined")
  end.

(** [transition(effect, color, duration)] *)
Definition set_transition_effect (effect c d : value) (m : manager) : manager :=
  if decide (effect = Str "fade") then set_fade m {| color := c; duration := d |}
  else m.

(** [setTransition(state, enable)] *)
Definition setTransition (state : Z) (enable : bool) (m : manager) : manager * result unit :=
  match _screenObject m !! state with
  | Some e =>
      (set_screenObject m (<[state := {| screen := screen e; transition := enable |}]> (_screenObject m)),
       Ok tt)
  | None => (m, Throw (TypeError "_screenObject[state] is undefined"))
  end.

(** [change(state, ...extraArgs)] *)
Definition change (state : Z) (extraArgs : list value) (m : manager) : manager * result unit :=
  match _screenObject m !! state with
  | None =>
      (* Protect against undefined ScreenObject *)
      (m, Throw (MeError ("Undefined ScreenObject for state '" ++ pretty state ++ "'")))
  | Some e =>
      if isCurrent state m then
        (* do nothing if already the current state *)
        (m, Ok tt)
      else
        (* store extra arguments if any *)
        let m := set_extraArgs m (match extraArgs with [] => None | _ => Some extraArgs end) in
        (* if fading effect *)
        if truthy (duration (_fade m)) && transition e then
          let m := set_onSwitchComplete m true in
          (viewport_fadeIn (color (_fade m)) (duration (_fade m)) state m, Ok tt)
        else
          (* wait for the last frame to be "finished" before switching *)
          (defer_switchState state m, Ok tt)
  end.

(** ** The host between two calls *)

(** The oldest deferred call runs. *)
Definition run_deferred (m : manager) : manager :=
  match deferred m with
  | [] => m
  | state :: rest => _switchState state (set_deferred m rest)
  end.

(** The oldest running fade is over: its completion callback runs. *)
Definition fade_complete (m : manager) : manager :=
  match fading m with
  | [] => m
  | state :: rest => defer_switchState state (set_fading m rest)
  end.

(** The requested animation frame fires, unless it has been cancelled. *)
Definition frame (time : num) (m : manager) : manager :=
  if isRunning m then _renderFrame time m else m.

(** ** Histories *)

(** What can happen to the manager: a call of an exported function, an
    assignment to an exported callback variable, or a step of the host. *)
Inductive call : Type :=
  | Init (loading : Screen)
  | Set_ (state : Z) (so : candidate)
  | SetTransition (state : Z) (enable : bool)
  | Transition (effect c d : value)
  | Change (state : Z) (extraArgs : list value)
  | Stop (music : value) (now : num)
  | Pause (music : value) (now : num)
  | Restart (music : value) (now : num)
  | Resume (music : value) (now : num)
  | AssignCallbacks (p r s t : option Callback)
  | HostDeferred
  | HostFadeComplete
  | HostFrame (time : num).

(** The manager after one call; a call that throws leaves it as the throwing
    function left it. *)
Definition exec (c : call) (m : manager) : manager :=
  match c with
  | Init loading => fst (init loading m)
  | Set_ state so => fst (set state so m)
  | SetTransition state enable => fst (setTransition state enable m)
  | Transition effect c d => set_transition_effect effect c d m
  | Change state extraArgs => fst (change state extraArgs m)
  | Stop music now => stop music now m
  | Pause music now => pause music now m
  | Restart music now => restart music now m
  | Resume music now => resume music now m
  | AssignCallbacks p r s t => set_callbacks m p r s t
  | HostDeferred => run_deferred m
  | HostFadeComplete => fade_complete m
  | HostFrame time => frame time m
  end.

(** The manager after a history, oldest call first. *)
Definition run (h : list call) (m : manager) : manager :=
  fold_left (fun acc c => exec c acc) h m.

(** A call registers [state] exactly when it is a [set] with a screen object
    for it, directly or through [init]. *)
Definition registers (state : Z) (c : call) : Prop :=
  match c with
  | Set_ s (ScreenObject _) => s = state
  | Init _ => state = LOADING
  | _ => False
  end.

(** [set] has been given a screen object for [state] in the history. *)
Definition was_set (state : Z) (h : list call) : Prop :=
  Exists (registers state) h.

End State.

(** * Vocabulary of the statements *)

(** [R] covers [r]: every side of [r] lies within the sides of [R]. *)
Definition covers (R r : Rect) : Prop :=
  rect_left R <= rect_left r /\ rect_top R <= rect_top r /\
  rect_right r <= rect_right R /\ rect_bottom r <= rect_bottom R.

(** The union of a family of rectangles, in the spec's words: the smallest
    rectangle that covers every member. *)
Definition is_union (R : Rect) (rs : list Rect) : Prop :=
  (forall r, r ∈ rs -> covers R r) /\
  (forall R', (forall r, r ∈ rs -> covers R' r) -> covers R' R).

Section BodyVocabulary.
Context {S : Type} `{Body.Shapes S}.
Import Body.

(** The rectangle [updateBounds] computes from a non-empty shape list: the
    bounds of shape 0, grown by the bounds of every later shape in turn. *)
Definition seeded_union (s0 : S) (rest : list S) : Rect :=
  fold_left union (map getBounds rest) (getBounds s0).

(** The bounds invariant of a body with at least one shape. *)
Definition bounds_ok (b : Body S) : Prop :=
  shapes b <> [] -> is_union (self b) (map getBounds (shapes b)).

(** The shape as [addShape] stores it. *)
Definition stored (shape : S) : S :=
  if isRect shape then toPolygon shape else shape.

(** What [applyFriction] does to one axis: [f] is the friction and [v] the
    velocity on that axis. *)
Definition friction_axis (f tick v : num) : num :=
  let fx := f * tick in
  let nx := v + fx in
  let x := v - fx in
  if decide (nx < 0) then nx else if decide (0 < x) then x else 0.

(** What [computeVelocity] does to an axis that gravity does not act on and
    that friction is applied to: friction, then the cap at [m]. *)
Definition axis_step (f m tick v : num) : num :=
  let v1 := friction_axis f tick v in
  if decide (v1 <> 0) then clamp v1 (- m) m else v1.

(** The velocity on an axis after one step per tick of a list. *)
Definition axis_steps (f m : num) (ticks : list num) (v : num) : num :=
  fold_left (fun acc tick => axis_step f m tick acc) ticks v.

(** The first [n] ticks of a tick sequence. *)
Definition first_ticks (tk : nat -> num) (n : nat) : list num :=
  map tk (seq 0 n).

(** The four steps of [computeVelocity], one after the other: gravity,
    friction, the cap on the vertical and the cap on the horizontal axis. *)
Definition gravity_phase (tick : num) (b : Body S) : Body S :=
  if decide (gravity b <> 0) then
    let b := set_vel b (vec2 (vx (vel b)) (vy (vel b) + gravity b * tick)) in
    let f := bool_decide (0 < vy (vel b) * sign (gravity b)) in
    set_flags b f (if f then false else jumping b)
  else b.

Definition friction_phase (tick : num) (b : Body S) : Body S :=
  if decide (vx (friction b) <> 0 \/ vy (friction b) <> 0)
  then set_vel b (applyFriction tick b (vel b))
  else b.

Definition cap_y (b : Body S) : Body S :=
  if decide (vy (vel b) <> 0)
  then set_vel b (vec2 (vx (vel b)) (clamp (vy (vel b)) (- vy (maxVel b)) (vy (maxVel b))))
  else b.

Definition cap_x (b : Body S) : Body S :=
  if decide (vx (vel b) <> 0)
  then set_vel b (vec2 (clamp (vx (vel b)) (- vx (maxVel b)) (vx (maxVel b))) (vy (vel b)))
  else b.

(** The fields no step of [computeVelocity] writes. *)
Definition same_settings (b b' : Body S) : Prop :=
  friction b' = friction b /\ maxVel b' = maxVel b /\
  gravity b' = gravity b /\ ancestor b' = ancestor b.

(** [sign(gravity)], taken as 1 when gravity is 0. *)
Definition gravity_dir (b : Body S) : num :=
  if decide (gravity b = 0) then 1 else sign (gravity b).

End BodyVocabulary.

(** ** One axis in binary64

    The steps of [applyFriction] and of the cap on one axis, written once
    more on primitive floats: every operation is the binary64 operation the
    program performs. *)
Module Binary64.
Import PrimFloat.

Definition zero : float := 0%float.
Definition one : float := 1%float.

(** Modelled from the spec: [me.Math.clamp], as [clamp] above. *)
Definition clamp (val low high : float) : float :=
  if PrimFloat.ltb val low then low
  else if PrimFloat.ltb high val then high
  else val.

Definition friction_axis (f tick v : float) : float :=
  let fx := PrimFloat.mul f tick in
  let nx := PrimFloat.add v fx in
  let x := PrimFloat.sub v fx in
  if PrimFloat.ltb nx zero then nx
  else if PrimFloat.ltb zero x then x
  else zero.

Definition axis_step (f m tick v : float) : float :=
  let v1 := friction_axis f tick v in
  if PrimFloat.eqb v1 zero then v1 else clamp v1 (PrimFloat.opp m) m.

(** A friction of 1e-17, as the nearest binary64 number, and the default
    velocity cap of a body. *)
Definition small : float := PrimFloat.div 1%float 100000000000000000%float.
Definition cap : float := 1000%float.

End Binary64.

(** The property names every JavaScript object inherits from
    [Object.prototype]: [json[id]] finds one of them, and not [undefined],
    on a document without an own key [id]. *)
Definition inherited_keys : list string :=
  ["constructor"; "hasOwnProperty"; "isPrototypeOf"; "propertyIsEnumerable";
   "toLocaleString"; "toString"; "valueOf"; "__proto__";
   "__defineGetter__"; "__defineSetter__"; "__lookupGetter__";
   "__lookupSetter__"]%string.

(** [needle] occurs in [hay]. *)
Definition includes (needle hay : string) : Prop :=
  exists pre post : string, hay = (pre ++ needle ++ post)%string.

(** ** Reachable managers *)

(** A screen object is registered for [s]. *)
Definition registered (m : State.manager) (s : Z) : Prop :=
  is_Some (State._screenObject m !! s).

(** What holds of the manager after every history: the run loop runs only
    in a state other than -1, the current state is -1 or registered, and
    every pending switch has a registered target. *)
Definition consistent (m : State.manager) : Prop :=
  (State._animFrameId m <> (-1)%Z -> State._state m <> (-1)%Z) /\
  (State._state m = (-1)%Z \/ registered m (State._state m)) /\
  (forall s, s ∈ State.deferred m -> registered m s) /\
  (forall s, s ∈ State.fading m -> registered m s).

(** ** A shape library to run the body on

    Every shape is a rectangle with an object identity; a polygon is kept as
    the rectangle around its points and an ellipse as the rectangle around
    its axes. *)

Definition point_rect (p : Vector2d) : Rect := rect p 0 0.

Definition around (x y : num) (points : list Vector2d) : Rect :=
  match points with
  | [] => rect (vec2 x y) 0 0
  | p :: rest =>
      let r := fold_left (fun acc q => union acc (point_rect q)) rest (point_rect p) in
      rect (vadd (rpos r) (vec2 x y)) (rwidth r) (rheight r)
  end.

#[global] Instance boxes : Body.Shapes (nat * Rect) := {|
  Body.getBounds := snd;
  Body.clone := fun s => (Datatypes.S (fst s), snd s);
  Body.isRect := fun s => Nat.even (fst s);
  Body.toPolygon := fun s => (Datatypes.S (fst s), snd s);
  Body.new_Vector2d := fun x y => vec2 (default 0 x) (default 0 y);
  Body.new_Polygon := fun x y points => (1%nat, around x y points);
  Body.new_Ellipse := fun x y w h =>
    (1%nat, rect (vec2 (x - w / Q2Qc 2) (y - h / Q2Qc 2)) w h);
|}.

(** ** Sample inputs *)

Module Sample.

Definition engine : Body.Engine :=
  {| Body.sys_gravity := Some 0; Body.ALL_OBJECT := 4294967295; Body.ENEMY_OBJECT := 8 |}.

Definition sprite : Body.Renderable :=
  {| Body.r_pos := vec2 (of_Z 10) (of_Z 20); Body.r_width := of_Z 32; Body.r_height := of_Z 32 |}.

Definition box (id : nat) (x y w h : Z) : nat * Rect :=
  (id, rect (vec2 (of_Z x) (of_Z y)) (of_Z w) (of_Z h)).

(** A body with two shapes and an update callback. *)
Definition two_boxes : Body.Body (nat * Rect) :=
  Body.constructor engine sprite (Some [box 1 0 0 4 4; box 3 2 (-3) 6 5]) (Some 7%nat).

(** A body without gravity that slides to the right. *)
Definition slider (fx vx0 : num) : Body.Body (nat * Rect) :=
  Body.set_vel
    (Body.setFriction fx 0 (Body.constructor engine sprite None None))
    (vec2 vx0 0).

(** A flat Physics Editor document with one triangle under "banana". *)
Definition shapesdef : Body.JSON :=
  Body.PhysicsEditor
    {[ "banana"%string :=
         [ {| Body.pe_shape := [0; 0; of_Z 4; 0; of_Z 4; of_Z 3] |} ] ]}.

(** A body under the default gravity, at rest. *)
Definition earth : Body.Engine :=
  {| Body.sys_gravity := None; Body.ALL_OBJECT := 4294967295; Body.ENEMY_OBJECT := 8 |}.

Definition faller : Body.Body (nat * Rect) :=
  Body.constructor earth sprite None None.

Definition wheel_event (wheelDelta : Z) : Pointer.Event :=
  {| Pointer.e_type := "wheel";
     Pointer.e_isPointerEvent := false;
     Pointer.e_button := Some 0;
     Pointer.e_isPrimary := None;
     Pointer.e_width := None;
     Pointer.e_height := None;
     Pointer.e_radiusX := None;
     Pointer.e_radiusY := None;
     Pointer.e_deltaX := Some 0;
     Pointer.e_wheelDelta := Some (of_Z wheelDelta);
     Pointer.e_wheelDeltaX := None |}.

Definition move_event : Pointer.Event :=
  {| Pointer.e_type := "pointermove";
     Pointer.e_isPointerEvent := true;
     Pointer.e_button := None;
     Pointer.e_isPrimary := Some true;
     Pointer.e_width := Some (of_Z 3);
     Pointer.e_height := Some (of_Z 4);
     Pointer.e_radiusX := None;
     Pointer.e_radiusY := None;
     Pointer.e_deltaX := None;
     Pointer.e_wheelDelta := None;
     Pointer.e_wheelDeltaX := None |}.

Definition host : Pointer.Host :=
  {| Pointer.device_PointerEvent := true;
     Pointer.globalToLocal := fun x y => (x, y);
     Pointer.localToWorld := fun x y => (x, y) |}.

Definition pointer : Pointer.Pointer :=
  Pointer.constructor (Num 0) (Num 0) (Num 1) (Num 1).

(** LOADING, MENU and PLAY are registered, as screens 10, 11 and 13. *)
Definition registered : State.manager :=
  State.run [State.Init 10%nat;
             State.Set_ State.MENU (State.ScreenObject 11%nat);
             State.Set_ State.PLAY (State.ScreenObject 13%nat)]
            State.initial.

(** The same with a global fade of 250 ms to black. *)
Definition faded : State.manager :=
  State.exec (State.Transition (Str "fade") (Str "#000000") (Num (of_Z 250))) registered.

(** PLAY is the current state and the run loop is running. *)
Definition playing : State.manager :=
  State.run [State.Change State.PLAY []; State.HostDeferred] registered.

End Sample.
(** * Arithmetic on [num] *)

Lemma Qc_eq_Qeq (x y : Qc) : x = y -> (this x == this y)%Q.
Proof. intros ->. reflexivity. Qed.

Lemma Qc_neq_Qeq (x y : Qc) : x <> y -> ~ (this x == this y)%Q.
Proof. intros Hne Heq. apply Hne, Qc_is_canon, Heq. Qed.

(** Goals and hypotheses over [Qc] are moved to [Q], where [lra] decides
    linear arithmetic. *)
Ltac qc_prep :=
  unfold num in *;
  repeat match goal with
  | H : @eq Qc _ _ |- _ => apply Qc_eq_Qeq in H
  | H : ~ @eq Qc _ _ |- _ => apply Qc_neq_Qeq in H
  | |- @eq Qc _ _ => apply Qc_is_canon
  | |- ~ @eq Qc _ _ => let H := fresh in intro H
  end;
  unfold of_Z, Qclt, Qcle in *;
  repeat (progress (unfold Qcplus, Qcminus, Qcopp, Qcmult, Q2Qc in *; cbn [this] in * ));
  repeat match goal with
  | H : context [Qred ?q] |- _ => rewrite (Qred_correct q) in H
  | |- context [Qred ?q] => rewrite (Qred_correct q)
  end.

Ltac qc := qc_prep; lra.

(** Case analysis on every comparison the code makes. *)
Ltac cases :=
  repeat match goal with
  | |- context [decide ?P] => destruct (decide P)
  | H : context [decide ?P] |- _ => destruct (decide P)
  end.

Lemma num_min_le_l x y : num_min x y <= x.
Proof. unfold num_min. cases; qc. Qed.

Lemma num_min_le_r x y : num_min x y <= y.
Proof. unfold num_min. cases; qc. Qed.

Lemma num_min_glb x y z : z <= x -> z <= y -> z <= num_min x y.
Proof. unfold num_min. intros. cases; qc. Qed.

Lemma num_max_ge_l x y : x <= num_max x y.
Proof. unfold num_max. cases; qc. Qed.

Lemma num_max_ge_r x y : y <= num_max x y.
Proof. unfold num_max. cases; qc. Qed.

Lemma num_max_lub x y z : x <= z -> y <= z -> num_max x y <= z.
Proof. unfold num_max. intros. cases; qc. Qed.

(** * Bounding rectangles *)

Lemma covers_refl r : covers r r.
Proof. unfold covers. repeat split; qc. Qed.

Lemma covers_trans a b c : covers a b -> covers b c -> covers a c.
Proof. unfold covers. intros (?&?&?&?) (?&?&?&?). repeat split; qc. Qed.


Lemma left_union a r : rect_left (union a r) = num_min (rect_left a) (rect_left r).
Proof. reflexivity. Qed.

Lemma top_union a r : rect_top (union a r) = num_min (rect_top a) (rect_top r).
Proof. reflexivity. Qed.

Lemma right_union a r : rect_right (union a r) = num_max (rect_right a) (rect_right r).
Proof. unfold rect_right at 1, union; cbn. qc. Qed.

Lemma bottom_union a r : rect_bottom (union a r) = num_max (rect_bottom a) (rect_bottom r).
Proof. unfold rect_bottom at 1, union; cbn. qc. Qed.

Lemma union_covers_l a r : covers (union a r) a.
Proof.
  unfold covers. rewrite left_union, top_union, right_union, bottom_union.
  auto using num_min_le_l, num_max_ge_l.
Qed.

Lemma union_covers_r a r : covers (union a r) r.
Proof.
  unfold covers. rewrite left_union, top_union, right_union, bottom_union.
  auto using num_min_le_r, num_max_ge_r.
Qed.

Lemma union_least a r R : covers R a -> covers R r -> covers R (union a r).
Proof.
  unfold covers. rewrite left_union, top_union, right_union, bottom_union.
  intros (?&?&?&?) (?&?&?&?). auto using num_min_glb, num_max_lub.
Qed.


Lemma is_union_singleton r : is_union r [r].
Proof.
  split.
  - intros r' Hin. apply list_elem_of_singleton in Hin as ->. apply covers_refl.
  - intros R' HR'. apply HR'. apply list_elem_of_singleton. reflexivity.
Qed.

Lemma is_union_snoc R rs r : is_union R rs -> is_union (union R r) (rs ++ [r]).
Proof.
  intros [Hc Hl]. split.
  - intros r' Hin. apply elem_of_app in Hin as [Hin | Hin].
    + eapply covers_trans; [apply union_covers_l | auto].
    + apply list_elem_of_singleton in Hin as ->. apply union_covers_r.
  - intros R' HR'. apply union_least.
    + apply Hl. intros r' Hin. apply HR'. apply elem_of_app. auto.
    + apply HR'. apply elem_of_app. right. apply list_elem_of_singleton. reflexivity.
Qed.

Lemma is_union_fold rs : forall R l,
  is_union R l -> is_union (fold_left union rs R) (l ++ rs).
Proof.
  induction rs as [| r rs IH]; intros R l HR; cbn.
  - rewrite app_nil_r. exact HR.
  - replace (l ++ r :: rs) with ((l ++ [r]) ++ rs) by (rewrite <- app_assoc; reflexivity).
    apply IH, is_union_snoc, HR.
Qed.


(** * The body rectangle *)

Section BodyBounds.
Context {S : Type} `{Body.Shapes S}.
Import Body.

Lemma grow_self (rest : list S) : forall b0 : Body S,
  let b1 := fold_left (fun acc s => set_self acc (union (self acc) (getBounds s))) rest b0 in
  self b1 = fold_left union (map getBounds rest) (self b0) /\
  shapes b1 = shapes b0 /\ fired b1 = fired b0 /\ onBodyUpdate b1 = onBodyUpdate b0.
Proof.
  induction rest as [| s rest IH]; intros b0; cbn.
  - auto.
  - destruct (IH (set_self b0 (union (self b0) (getBounds s)))) as (-> & -> & -> & ->).
    auto.
Qed.

Lemma updateBounds_shapes (b : Body S) : shapes (updateBounds b) = shapes b.
Proof.
  unfold updateBounds. destruct (shapes b) as [| s0 rest] eqn:Hs.
  - destruct (onBodyUpdate b); cbn; auto.
  - match goal with |- context [fold_left ?f rest ?b0] =>
      destruct (grow_self rest b0) as (_ & Hsh & _ & _) end.
    cbn in Hsh. destruct (onBodyUpdate _); cbn; rewrite Hsh; auto.
Qed.

Lemma updateBounds_self (b : Body S) :
  self (updateBounds b) =
  match shapes b with
  | [] => self b
  | s0 :: rest => seeded_union s0 rest
  end.
Proof.
  unfold updateBounds, seeded_union. destruct (shapes b) as [| s0 rest] eqn:Hs.
  - destruct (onBodyUpdate b); reflexivity.
  - match goal with |- context [fold_left ?f rest ?b0] =>
      destruct (grow_self rest b0) as (Hself & _) end.
    cbn in Hself. destruct (onBodyUpdate _); cbn; rewrite Hself;
      destruct (getBounds s0) as [p w h]; reflexivity.
Qed.

Lemma updateBounds_fired (b : Body S) :
  fired (updateBounds b) =
  fired b ++ match onBodyUpdate b with
             | Some f => [(f, self (updateBounds b))]
             | None => []
             end.
Proof.
  unfold updateBounds. destruct (shapes b) as [| s0 rest] eqn:Hs.
  - destruct (onBodyUpdate b); cbn; [reflexivity | rewrite app_nil_r; reflexivity].
  - match goal with |- context [fold_left ?f rest ?b0] =>
      destruct (grow_self rest b0) as (_ & _ & Hf & Hcb) end.
    cbn in Hf, Hcb. rewrite Hcb.
    destruct (onBodyUpdate b); cbn; rewrite Hf; [reflexivity | rewrite app_nil_r; reflexivity].
Qed.

Lemma seeded_union_is_union (s0 : S) (rest : list S) :
  is_union (seeded_union s0 rest) (map getBounds (s0 :: rest)).
Proof.
  unfold seeded_union. cbn [map].
  change (getBounds s0 :: map getBounds rest)
    with ([getBounds s0] ++ map getBounds rest).
  apply is_union_fold, is_union_singleton.
Qed.

Lemma updateBounds_ok (b : Body S) : bounds_ok (updateBounds b).
Proof.
  unfold bounds_ok. rewrite updateBounds_shapes, updateBounds_self.
  destruct (shapes b) as [| s0 rest]; [congruence |].
  intros _. apply seeded_union_is_union.
Qed.


(** The shape [addShape] stores. *)
Lemma addShape_batch (shape : S) (b : Body S) :
  fst (addShape shape (Bool true) b) =
  set_shapes b (shapes b ++ [if isRect shape then toPolygon shape else shape]).
Proof. unfold addShape. rewrite decide_True by reflexivity. reflexivity. Qed.

Lemma addShape_updates (shape : S) (batchInsert : value) (b : Body S) :
  batchInsert <> Bool true ->
  fst (addShape shape batchInsert b) =
  updateBounds (set_shapes b (shapes b ++ [if isRect shape then toPolygon shape else shape])).
Proof. intros Hne. unfold addShape. rewrite decide_False by exact Hne. reflexivity. Qed.

(** The shapes a batch insertion of [l] leaves, each through [conv]. *)
Lemma batch_shapes {A : Type} (conv : A -> S) (l : list A) : forall b : Body S,
  shapes (fold_left (fun acc x => fst (addShape (conv x) (Bool true) acc)) l b) =
  shapes b ++ map (fun x => if isRect (conv x) then toPolygon (conv x) else conv x) l.
Proof.
  induction l as [| x l IH]; intros b; cbn [fold_left map].
  - rewrite app_nil_r. reflexivity.
  - rewrite IH, addShape_batch. cbn. rewrite <- app_assoc. reflexivity.
Qed.



End BodyBounds.


(** * Friction *)

Lemma of_Z_zero : of_Z (Z.of_nat 0) = 0.
Proof. apply Qc_is_canon. reflexivity. Qed.

Lemma archimedes (x d : num) :
  0 < d -> exists n : nat, x <= of_Z (Z.of_nat n) * d.
Proof.
  intros Hd.
  set (c := Qceiling (this x / this d)).
  assert (Hc : (this x <= inject_Z c * this d)%Q).
  { assert (Hd0 : (0 < this d)%Q) by exact Hd.
    rewrite <- (Qmult_div_r (this x) (this d)) at 1 by lra.
    rewrite (Qmult_comm (this d)).
    apply Qmult_le_compat_r; [apply Qle_ceiling | lra]. }
  exists (Z.to_nat c). destruct (Z.le_gt_cases 0 c) as [Hpos | Hneg].
  - rewrite Z2Nat.id by exact Hpos. qc.
  - replace (Z.to_nat c) with 0%nat by lia. rewrite of_Z_zero.
    assert (Hle : (inject_Z c <= 0)%Q).
    { change 0%Q with (inject_Z 0). rewrite <- Zle_Qle. lia. }
    assert (Hd' : (0 < this d)%Q) by exact Hd.
    assert (Hprod : (inject_Z c * this d <= 0)%Q) by nra.
    qc.
Qed.

Lemma of_Z_succ (n : nat) : of_Z (Z.of_nat (Datatypes.S n)) = of_Z (Z.of_nat n) + 1.
Proof.
  apply Qc_is_canon. unfold of_Z, Qcplus, Q2Qc; cbn [this].
  rewrite !Qred_correct, Nat2Z.inj_succ. unfold Z.succ. rewrite inject_Z_plus.
  reflexivity.
Qed.

(** One [applyFriction] step on an axis whose friction delta is not
    negative. *)
Lemma friction_axis_cases (f tick v : num) :
  0 <= f * tick ->
  (- (f * tick) <= v -> v <= f * tick -> friction_axis f tick v = 0) /\
  (f * tick < v -> friction_axis f tick v = v - f * tick) /\
  (v < - (f * tick) -> friction_axis f tick v = v + f * tick).
Proof.
  intros Hd. unfold friction_axis. set (d := f * tick) in *. clearbody d.
  repeat split; intros; cases; try reflexivity; exfalso; qc.
Qed.

(** Without friction the step leaves the velocity as it is. *)
Lemma friction_axis_none (tick v : num) : friction_axis 0 tick v = v.
Proof.
  unfold friction_axis. cases; try qc.
  all: exfalso; qc.
Qed.

(** A step whose friction delta is not negative, under a cap that is not
    negative, keeps the velocity on its side of zero and no further from
    it. *)
Lemma axis_step_contracts (f m tick v : num) :
  0 <= f * tick -> 0 <= m ->
  (0 <= v -> 0 <= axis_step f m tick v /\ axis_step f m tick v <= v) /\
  (v <= 0 -> v <= axis_step f m tick v /\ axis_step f m tick v <= 0).
Proof.
  intros Hd Hm. unfold axis_step, friction_axis, clamp.
  set (delta := f * tick) in *. clearbody delta.
  split; intros Hv; split; cases; qc.
Qed.

(** A step whose friction delta reaches the magnitude of the velocity ends
    at exactly 0. *)
Lemma axis_step_rest (f m tick v : num) :
  0 <= f * tick -> - (f * tick) <= v -> v <= f * tick -> axis_step f m tick v = 0.
Proof.
  intros Hd Hlo Hhi. unfold axis_step.
  destruct (friction_axis_cases f tick v Hd) as (Hz & _).
  rewrite (Hz Hlo Hhi). rewrite decide_False; [reflexivity | intros Hne; apply Hne; reflexivity].
Qed.

Lemma axis_step_bounds (f m tick d v : num) :
  0 < d -> d <= f * tick -> 0 <= m ->
  (0 <= v -> 0 <= axis_step f m tick v /\ axis_step f m tick v <= num_max 0 (v - d)) /\
  (v <= 0 -> num_min 0 (v + d) <= axis_step f m tick v /\ axis_step f m tick v <= 0).
Proof.
  intros Hd Hle Hm. unfold axis_step, friction_axis, clamp, num_max, num_min.
  set (delta := f * tick) in *. clearbody delta.
  split; intros Hv; split; cases; qc.
Qed.

Lemma axis_steps_snoc (f m : num) (ticks : list num) (tick v : num) :
  axis_steps f m (ticks ++ [tick]) v = axis_step f m tick (axis_steps f m ticks v).
Proof. unfold axis_steps. rewrite fold_left_app. reflexivity. Qed.

Lemma axis_steps_contract (f m : num) (ticks : list num) (v : num) :
  Forall (fun tick => 0 <= f * tick) ticks -> 0 <= m ->
  (0 <= v -> 0 <= axis_steps f m ticks v /\ axis_steps f m ticks v <= v) /\
  (v <= 0 -> v <= axis_steps f m ticks v /\ axis_steps f m ticks v <= 0).
Proof.
  intros Hticks Hm. induction ticks as [| tick ticks IH] using rev_ind.
  - cbn. split; intros Hv; split; qc.
  - apply Forall_app in Hticks as [Hinit Hlast].
    rewrite Forall_singleton in Hlast.
    specialize (IH Hinit). rewrite axis_steps_snoc.
    set (w := axis_steps f m ticks v) in *. clearbody w.
    pose proof (axis_step_contracts f m tick w Hlast Hm) as [Hp Hn].
    set (w' := axis_step f m tick w) in *. clearbody w'.
    destruct IH as [IHp IHn]. split; intros Hv.
    + destruct (IHp Hv) as [H0 H1]. destruct (Hp H0) as [H2 H3]. split; qc.
    + destruct (IHn Hv) as [H0 H1]. destruct (Hn H1) as [H2 H3]. split; qc.
Qed.

Lemma first_ticks_succ (tk : nat -> num) (n : nat) :
  first_ticks tk (Datatypes.S n) = first_ticks tk n ++ [tk n].
Proof. unfold first_ticks. rewrite seq_S, map_app. reflexivity. Qed.

(** After [n] steps the velocity has come at least [n * d] closer to zero,
    from the side it started on. *)
Lemma axis_steps_bounds (f m d : num) (tk : nat -> num) (v : num) :
  0 < d -> (forall i, d <= f * tk i) -> 0 <= m ->
  forall n,
    let w := axis_steps f m (first_ticks tk n) v in
    (0 <= v -> 0 <= w /\ w <= num_max 0 (v - of_Z (Z.of_nat n) * d)) /\
    (v <= 0 -> num_min 0 (v + of_Z (Z.of_nat n) * d) <= w /\ w <= 0).
Proof.
  intros Hd Hle Hm n. induction n as [| n IH]; cbn zeta in *.
  - cbn. rewrite of_Z_zero. unfold num_max, num_min.
    split; intros; split; cases; qc.
  - rewrite first_ticks_succ, axis_steps_snoc, of_Z_succ.
    set (w := axis_steps f m (first_ticks tk n) v) in *. clearbody w.
    set (k := of_Z (Z.of_nat n)) in *. clearbody k.
    pose proof (axis_step_bounds f m (tk n) d w Hd (Hle n) Hm) as [Hp Hn].
    destruct IH as [IHp IHn].
    set (kd := k * d) in *.
    assert (Hk : (k + 1) * d = kd + d) by (unfold kd; ring).
    rewrite Hk. clearbody kd. clear Hk.
    revert Hp Hn IHp IHn. set (w' := axis_step f m (tk n) w). clearbody w'.
    unfold num_max, num_min. intros Hp Hn IHp IHn.
    split; intros Hv.
    + destruct (IHp Hv) as [H0 H1]. destruct (Hp H0) as [H2 H3].
      split; [exact H2 |]. revert H1 H3. cases; intros; qc.
    + destruct (IHn Hv) as [H0 H1]. destruct (Hn H1) as [H2 H3].
      split; [| exact H3]. revert H0 H2. cases; intros; qc.
Qed.

Lemma axis_steps_converge (f m d : num) (tk : nat -> num) (v : num) :
  0 < d -> (forall i, d <= f * tk i) -> 0 <= m ->
  exists N : nat, forall n, (N <= n)%nat -> axis_steps f m (first_ticks tk n) v = 0.
Proof.
  intros Hd Hle Hm.
  destruct (archimedes (num_max v (- v)) d Hd) as [N HN].
  exists N. intros n Hn.
  pose proof (axis_steps_bounds f m d tk v Hd Hle Hm n) as [Hp Hneg]. cbn zeta in *.
  assert (Hmono : of_Z (Z.of_nat N) * d <= of_Z (Z.of_nat n) * d).
  { apply Qcmult_le_compat_r; [| apply Qclt_le_weak; exact Hd].
    unfold of_Z, Qcle, Q2Qc; cbn [this]. rewrite !Qred_correct, <- Zle_Qle. lia. }
  set (kn := of_Z (Z.of_nat n) * d) in *. clearbody kn.
  set (kN := of_Z (Z.of_nat N) * d) in *. clearbody kN.
  set (w := axis_steps f m (first_ticks tk n) v) in *. clearbody w.
  revert HN Hp Hneg. unfold num_max, num_min. cases; intros HN Hp Hneg.
  all: destruct (Qclt_le_dec v 0) as [Hv | Hv];
    [ assert (Hv' : v <= 0) by (apply Qclt_le_weak; exact Hv);
      destruct (Hneg Hv') as [? ?]; qc
    | destruct (Hp Hv) as [? ?]; qc ].
Qed.

(** Closed comparisons between numerals. *)
Ltac numeral :=
  first [ vm_compute; reflexivity
        | vm_compute; discriminate
        | apply Qc_is_canon; vm_compute; reflexivity
        | let H := fresh in intro H; apply Qc_eq_Qeq in H; vm_compute in H; discriminate
        | let H := fresh in intro H; vm_compute in H; first [discriminate | apply H; reflexivity] ].

Section BodyFriction.
Context {S : Type} `{Body.Shapes S}.
Import Body.

Lemma applyFriction_axes (tick : num) (b : Body S) (v : Vector2d) :
  applyFriction tick b v =
  vec2 (friction_axis (vx (friction b)) tick (vx v))
       (friction_axis (vy (friction b)) tick (vy v)).
Proof. reflexivity. Qed.

Lemma computeVelocity_phases (tick : num) (b : Body S) :
  computeVelocity tick b = cap_x (cap_y (friction_phase tick (gravity_phase tick b))).
Proof. reflexivity. Qed.

Lemma gravity_phase_settings (tick : num) (b : Body S) :
  same_settings b (gravity_phase tick b).
Proof. unfold gravity_phase, same_settings. destruct (decide _); cbn; auto. Qed.

Lemma friction_phase_settings (tick : num) (b : Body S) :
  same_settings b (friction_phase tick b).
Proof. unfold friction_phase, same_settings. destruct (decide _); cbn; auto. Qed.

Lemma cap_y_settings (b : Body S) : same_settings b (cap_y b).
Proof. unfold cap_y, same_settings. destruct (decide _); cbn; auto. Qed.

Lemma cap_x_settings (b : Body S) : same_settings b (cap_x b).
Proof. unfold cap_x, same_settings. destruct (decide _); cbn; auto. Qed.

Lemma same_settings_trans (a b c : Body S) :
  same_settings a b -> same_settings b c -> same_settings a c.
Proof.
  unfold same_settings. intros (-> & -> & -> & ->) (-> & -> & -> & ->). auto.
Qed.

Lemma computeVelocity_constants (tick : num) (b : Body S) :
  friction (computeVelocity tick b) = friction b /\
  maxVel (computeVelocity tick b) = maxVel b /\
  gravity (computeVelocity tick b) = gravity b /\
  ancestor (computeVelocity tick b) = ancestor b.
Proof.
  rewrite computeVelocity_phases.
  change (same_settings b (cap_x (cap_y (friction_phase tick (gravity_phase tick b))))).
  eauto using same_settings_trans, gravity_phase_settings, friction_phase_settings,
    cap_y_settings, cap_x_settings.
Qed.

Lemma gravity_phase_vx (tick : num) (b : Body S) :
  vx (vel (gravity_phase tick b)) = vx (vel b).
Proof. unfold gravity_phase. destruct (decide _); reflexivity. Qed.

Lemma gravity_phase_off (tick : num) (b : Body S) :
  gravity b = 0 -> gravity_phase tick b = b.
Proof. intros Hg. unfold gravity_phase. rewrite decide_False; [reflexivity | congruence]. Qed.

Lemma friction_phase_vel (tick : num) (b : Body S) :
  vx (friction b) <> 0 \/ vy (friction b) <> 0 ->
  vel (friction_phase tick b) =
  vec2 (friction_axis (vx (friction b)) tick (vx (vel b)))
       (friction_axis (vy (friction b)) tick (vy (vel b))).
Proof. intros Hf. unfold friction_phase. rewrite decide_True by exact Hf. reflexivity. Qed.

Lemma cap_y_vx (b : Body S) : vx (vel (cap_y b)) = vx (vel b).
Proof. unfold cap_y. destruct (decide _); reflexivity. Qed.

Lemma cap_x_vy (b : Body S) : vy (vel (cap_x b)) = vy (vel b).
Proof. unfold cap_x. destruct (decide _); reflexivity. Qed.

Lemma cap_x_vx (b : Body S) :
  vx (vel (cap_x b)) =
  if decide (vx (vel b) <> 0) then clamp (vx (vel b)) (- vx (maxVel b)) (vx (maxVel b))
  else vx (vel b).
Proof. unfold cap_x. destruct (decide _); reflexivity. Qed.

Lemma cap_y_vy (b : Body S) :
  vy (vel (cap_y b)) =
  if decide (vy (vel b) <> 0) then clamp (vy (vel b)) (- vy (maxVel b)) (vy (maxVel b))
  else vy (vel b).
Proof. unfold cap_y. destruct (decide _); reflexivity. Qed.

Lemma computeVelocity_vx (tick : num) (b : Body S) :
  vx (friction b) <> 0 ->
  vx (vel (computeVelocity tick b)) =
  axis_step (vx (friction b)) (vx (maxVel b)) tick (vx (vel b)).
Proof.
  intros Hf. rewrite computeVelocity_phases, cap_x_vx, cap_y_vx.
  destruct (gravity_phase_settings tick b) as (Hg1 & Hg2 & _).
  destruct (friction_phase_settings tick (gravity_phase tick b)) as (_ & Hf2 & _).
  destruct (cap_y_settings (friction_phase tick (gravity_phase tick b))) as (_ & Hc2 & _).
  rewrite Hc2, Hf2, Hg2.
  rewrite friction_phase_vel by (rewrite Hg1; auto).
  rewrite Hg1, gravity_phase_vx. reflexivity.
Qed.

Lemma computeVelocity_vy (tick : num) (b : Body S) :
  gravity b = 0 -> vy (friction b) <> 0 ->
  vy (vel (computeVelocity tick b)) =
  axis_step (vy (friction b)) (vy (maxVel b)) tick (vy (vel b)).
Proof.
  intros Hg Hf. rewrite computeVelocity_phases, cap_x_vy, cap_y_vy.
  rewrite gravity_phase_off by exact Hg.
  destruct (friction_phase_settings tick b) as (_ & Hf2 & _).
  rewrite Hf2, friction_phase_vel by auto. reflexivity.
Qed.

Lemma update_body (tick : num) (dt : value) (b : Body S) :
  vel (fst (update tick dt b)) = vel (computeVelocity tick b) /\
  friction (fst (update tick dt b)) = friction b /\
  maxVel (fst (update tick dt b)) = maxVel b /\
  gravity (fst (update tick dt b)) = gravity b.
Proof.
  destruct (computeVelocity_constants tick b) as (Hf & Hm & Hg & _).
  unfold update. generalize dependent (computeVelocity tick b). intros c Hf Hm Hg.
  destruct (ancestor c); cbn; auto.
Qed.

Lemma updates_snoc (ticks : list num) (tick : num) (b : Body S) :
  updates (ticks ++ [tick]) b = fst (update tick Undefined (updates ticks b)).
Proof. unfold updates. rewrite fold_left_app. reflexivity. Qed.

Lemma updates_constants (ticks : list num) (b : Body S) :
  friction (updates ticks b) = friction b /\
  maxVel (updates ticks b) = maxVel b /\
  gravity (updates ticks b) = gravity b.
Proof.
  induction ticks as [| tick ticks IH] using rev_ind.
  - auto.
  - rewrite updates_snoc.
    destruct (update_body tick Undefined (updates ticks b)) as (_ & -> & -> & ->).
    exact IH.
Qed.

Lemma updates_vx (ticks : list num) (b : Body S) :
  vx (friction b) <> 0 ->
  vx (vel (updates ticks b)) =
  axis_steps (vx (friction b)) (vx (maxVel b)) ticks (vx (vel b)).
Proof.
  intros Hf. induction ticks as [| tick ticks IH] using rev_ind.
  - reflexivity.
  - rewrite updates_snoc, axis_steps_snoc, <- IH.
    destruct (update_body tick Undefined (updates ticks b)) as (-> & _).
    destruct (updates_constants ticks b) as (Hfr & Hm & _).
    rewrite computeVelocity_vx by (rewrite Hfr; exact Hf).
    rewrite Hfr, Hm. reflexivity.
Qed.

Lemma updates_vy (ticks : list num) (b : Body S) :
  gravity b = 0 -> vy (friction b) <> 0 ->
  vy (vel (updates ticks b)) =
  axis_steps (vy (friction b)) (vy (maxVel b)) ticks (vy (vel b)).
Proof.
  intros Hg Hf. induction ticks as [| tick ticks IH] using rev_ind.
  - reflexivity.
  - rewrite updates_snoc, axis_steps_snoc, <- IH.
    destruct (update_body tick Undefined (updates ticks b)) as (-> & _).
    destruct (updates_constants ticks b) as (Hfr & Hm & Hgr).
    rewrite computeVelocity_vy by (rewrite ?Hfr, ?Hgr; assumption).
    rewrite Hfr, Hm. reflexivity.
Qed.

(** The same without a condition on the friction: an axis without friction
    takes the step with friction 0. *)
Lemma friction_phase_vx (tick : num) (b : Body S) :
  vx (vel (friction_phase tick b)) = friction_axis (vx (friction b)) tick (vx (vel b)).
Proof.
  unfold friction_phase. destruct (decide _) as [Hf | Hf]; [reflexivity |].
  destruct (decide (vx (friction b) = 0)) as [E | E].
  - rewrite E, friction_axis_none. reflexivity.
  - exfalso. apply Hf. left. exact E.
Qed.

Lemma friction_phase_vy (tick : num) (b : Body S) :
  vy (vel (friction_phase tick b)) = friction_axis (vy (friction b)) tick (vy (vel b)).
Proof.
  unfold friction_phase. destruct (decide _) as [Hf | Hf]; [reflexivity |].
  destruct (decide (vy (friction b) = 0)) as [E | E].
  - rewrite E, friction_axis_none. reflexivity.
  - exfalso. apply Hf. right. exact E.
Qed.

Lemma computeVelocity_vx_any (tick : num) (b : Body S) :
  vx (vel (computeVelocity tick b)) =
  axis_step (vx (friction b)) (vx (maxVel b)) tick (vx (vel b)).
Proof.
  rewrite computeVelocity_phases, cap_x_vx, cap_y_vx.
  destruct (gravity_phase_settings tick b) as (Hg1 & Hg2 & _).
  destruct (friction_phase_settings tick (gravity_phase tick b)) as (_ & Hf2 & _).
  destruct (cap_y_settings (friction_phase tick (gravity_phase tick b))) as (_ & Hc2 & _).
  rewrite Hc2, Hf2, Hg2.
  rewrite friction_phase_vx, Hg1, gravity_phase_vx. reflexivity.
Qed.

Lemma computeVelocity_vy_any (tick : num) (b : Body S) :
  gravity b = 0 ->
  vy (vel (computeVelocity tick b)) =
  axis_step (vy (friction b)) (vy (maxVel b)) tick (vy (vel b)).
Proof.
  intros Hg. rewrite computeVelocity_phases, cap_x_vy, cap_y_vy.
  rewrite gravity_phase_off by exact Hg.
  destruct (friction_phase_settings tick b) as (_ & Hf2 & _).
  rewrite Hf2, friction_phase_vy. reflexivity.
Qed.

Lemma updates_vx_any (ticks : list num) (b : Body S) :
  vx (vel (updates ticks b)) =
  axis_steps (vx (friction b)) (vx (maxVel b)) ticks (vx (vel b)).
Proof.
  induction ticks as [| tick ticks IH] using rev_ind.
  - reflexivity.
  - rewrite updates_snoc, axis_steps_snoc, <- IH.
    destruct (update_body tick Undefined (updates ticks b)) as (-> & _).
    destruct (updates_constants ticks b) as (Hfr & Hm & _).
    rewrite computeVelocity_vx_any, Hfr, Hm. reflexivity.
Qed.

Lemma updates_vy_any (ticks : list num) (b : Body S) :
  gravity b = 0 ->
  vy (vel (updates ticks b)) =
  axis_steps (vy (friction b)) (vy (maxVel b)) ticks (vy (vel b)).
Proof.
  intros Hg. induction ticks as [| tick ticks IH] using rev_ind.
  - reflexivity.
  - rewrite updates_snoc, axis_steps_snoc, <- IH.
    destruct (update_body tick Undefined (updates ticks b)) as (-> & _).
    destruct (updates_constants ticks b) as (Hfr & Hm & Hgr).
    rewrite computeVelocity_vy_any by (rewrite Hgr; exact Hg).
    rewrite Hfr, Hm. reflexivity.
Qed.

End BodyFriction.

(** On exact rationals, on an axis with positive friction and a
    non-negative cap, the velocity reaches 0 after finitely many steps, stays
    there, and on the way stays between 0 and where it started. *)
Lemma axis_comes_to_rest (f m t0 : num) (tk : nat -> num) (v : num) :
  0 < t0 -> (forall i, t0 <= tk i) -> 0 < f -> 0 <= m ->
  (exists N : nat, forall n, (N <= n)%nat -> axis_steps f m (first_ticks tk n) v = 0) /\
  (forall n,
     (0 <= v -> 0 <= axis_steps f m (first_ticks tk n) v /\
                axis_steps f m (first_ticks tk n) v <= v) /\
     (v <= 0 -> v <= axis_steps f m (first_ticks tk n) v /\
                axis_steps f m (first_ticks tk n) v <= 0)).
Proof.
  intros Ht0 Htk Hf Hm.
  assert (Hd : 0 < f * t0).
  { replace 0 with (0 * t0) by ring. apply Qcmult_lt_compat_r; assumption. }
  assert (Hle : forall i, f * t0 <= f * tk i).
  { intros i. rewrite !(Qcmult_comm f).
    apply Qcmult_le_compat_r; [apply Htk | apply Qclt_le_weak, Hf]. }
  split; [apply (axis_steps_converge f m (f * t0) tk v Hd Hle Hm) |].
  intros n.
  pose proof (axis_steps_bounds f m (f * t0) tk v Hd Hle Hm n) as [Hp Hn].
  cbn zeta in *.
  assert (Hk : 0 <= of_Z (Z.of_nat n) * (f * t0)).
  { replace 0 with (0 * (f * t0)) by ring.
    apply Qcmult_le_compat_r; [| apply Qclt_le_weak, Hd].
    unfold of_Z, Qcle, Q2Qc; cbn [this]. rewrite !Qred_correct.
    change 0%Q with (inject_Z 0). rewrite <- Zle_Qle. lia. }
  set (kd := of_Z (Z.of_nat n) * (f * t0)) in *. clearbody kd.
  set (w := axis_steps f m (first_ticks tk n) v) in *. clearbody w.
  clear Hd Hle. revert Hp Hn. unfold num_max, num_min. cases; intros Hp Hn.
  all: split; intros Hv;
    [ destruct (Hp Hv) as [? ?]; split; qc | destruct (Hn Hv) as [? ?]; split; qc ].
Qed.

Section BodyRest.
Context {S : Type} `{Body.Shapes S}.
Import Body.

(** C2, as the code has it.  For every body, every list of timer ticks and
    every axis on which the friction delta [friction * tick] is negative for
    no tick and the velocity cap is not negative (and, for the vertical
    axis, with gravity 0): after one [update()] call per tick the velocity
    on that axis is on the side of zero it started on and no further from
    zero than it started, so repeated updates never change its sign and
    never let its magnitude grow.  An [update()] call whose friction delta
    meets or exceeds the magnitude of the velocity leaves the velocity at
    exactly 0; a velocity of 0 therefore stays 0.  A single [applyFriction]
    step with a friction delta that is not negative never moves the
    velocity past zero: the velocity becomes exactly 0 when the delta meets
    or exceeds its magnitude, and is otherwise moved toward 0 by the delta.
    Nothing is said about the number of calls after which the velocity is
    0. *)
Theorem friction_never_reverses (b : Body S) (ticks : list num) :
  (Forall (fun tick => 0 <= vx (friction b) * tick) ticks -> 0 <= vx (maxVel b) ->
     (0 <= vx (vel b) ->
        0 <= vx (vel (updates ticks b)) /\
        vx (vel (updates ticks b)) <= vx (vel b)) /\
     (vx (vel b) <= 0 ->
        vx (vel b) <= vx (vel (updates ticks b)) /\
        vx (vel (updates ticks b)) <= 0)) /\
  (gravity b = 0 ->
   Forall (fun tick => 0 <= vy (friction b) * tick) ticks -> 0 <= vy (maxVel b) ->
     (0 <= vy (vel b) ->
        0 <= vy (vel (updates ticks b)) /\
        vy (vel (updates ticks b)) <= vy (vel b)) /\
     (vy (vel b) <= 0 ->
        vy (vel b) <= vy (vel (updates ticks b)) /\
        vy (vel (updates ticks b)) <= 0)) /\
  (forall tick dt,
     0 <= vx (friction b) * tick ->
     - (vx (friction b) * tick) <= vx (vel b) -> vx (vel b) <= vx (friction b) * tick ->
     vx (vel (fst (update tick dt b))) = 0) /\
  (forall tick dt,
     gravity b = 0 -> 0 <= vy (friction b) * tick ->
     - (vy (friction b) * tick) <= vy (vel b) -> vy (vel b) <= vy (friction b) * tick ->
     vy (vel (fst (update tick dt b))) = 0) /\
  (forall tick v,
     (0 <= vx (friction b) * tick ->
        (- (vx (friction b) * tick) <= vx v -> vx v <= vx (friction b) * tick ->
           vx (applyFriction tick b v) = 0) /\
        (vx (friction b) * tick < vx v ->
           vx (applyFriction tick b v) = vx v - vx (friction b) * tick) /\
        (vx v < - (vx (friction b) * tick) ->
           vx (applyFriction tick b v) = vx v + vx (friction b) * tick)) /\
     (0 <= vy (friction b) * tick ->
        (- (vy (friction b) * tick) <= vy v -> vy v <= vy (friction b) * tick ->
           vy (applyFriction tick b v) = 0) /\
        (vy (friction b) * tick < vy v ->
           vy (applyFriction tick b v) = vy v - vy (friction b) * tick) /\
        (vy v < - (vy (friction b) * tick) ->
           vy (applyFriction tick b v) = vy v + vy (friction b) * tick))).
Proof.
  repeat apply conj.
  - intros Hticks Hm. rewrite updates_vx_any. apply axis_steps_contract; assumption.
  - intros Hg Hticks Hm. rewrite updates_vy_any by exact Hg.
    apply axis_steps_contract; assumption.
  - intros tick dt Hd Hlo Hhi. destruct (update_body tick dt b) as (-> & _).
    rewrite computeVelocity_vx_any. apply axis_step_rest; assumption.
  - intros tick dt Hg Hd Hlo Hhi. destruct (update_body tick dt b) as (-> & _).
    rewrite computeVelocity_vy_any by exact Hg. apply axis_step_rest; assumption.
  - intros tick v.
    split; intros Hd; rewrite applyFriction_axes; apply friction_axis_cases, Hd.
Qed.

(** On exact rationals, with ticks that stay at or above some positive tick,
    positive friction and a cap that is not negative, the velocity is exactly
    0 from some call on.  Rounding takes this away: in binary64 a friction
    delta below half a unit in the last place of the velocity is absorbed and
    the velocity never changes ([friction_stops_counterexample]). *)
Lemma updates_come_to_rest (b : Body S) (tk : nat -> num) (t0 : num) :
  0 < t0 -> (forall i, t0 <= tk i) ->
  (0 < vx (friction b) -> 0 <= vx (maxVel b) ->
     exists N : nat, forall n, (N <= n)%nat ->
       vx (vel (updates (first_ticks tk n) b)) = 0) /\
  (gravity b = 0 -> 0 < vy (friction b) -> 0 <= vy (maxVel b) ->
     exists N : nat, forall n, (N <= n)%nat ->
       vy (vel (updates (first_ticks tk n) b)) = 0).
Proof.
  intros Ht0 Htk. split.
  - intros Hf Hm.
    destruct (axis_comes_to_rest (vx (friction b)) (vx (maxVel b)) t0 tk (vx (vel b))
                Ht0 Htk Hf Hm) as [[N HN] _].
    exists N. intros n Hn. rewrite updates_vx_any. apply HN, Hn.
  - intros Hg Hf Hm.
    destruct (axis_comes_to_rest (vy (friction b)) (vy (maxVel b)) t0 tk (vy (vel b))
                Ht0 Htk Hf Hm) as [[N HN] _].
    exists N. intros n Hn. rewrite updates_vy_any by exact Hg. apply HN, Hn.
Qed.

End BodyRest.

Lemma friction_never_reverses_witness :
  0 <= vx (Body.vel (Body.updates [1; 1] (Sample.slider 1 (of_Z 3)))) /\
  vx (Body.vel (Body.updates [1; 1] (Sample.slider 1 (of_Z 3))))
  <= vx (Body.vel (Sample.slider 1 (of_Z 3))).
Proof.
  destruct (friction_never_reverses (Sample.slider 1 (of_Z 3)) [1; 1]) as [Hx _].
  apply Hx.
  - constructor; [numeral |]. constructor; [numeral |]. constructor.
  - numeral.
  - numeral.
Defined.

(** With a friction delta between -1 and 0, a step moves a velocity of at
    least 1 no closer to zero. *)
Lemma axis_step_pushed (f m tick w : num) :
  f * tick <= 0 -> - (1) <= f * tick -> 1 <= m -> 1 <= w -> 1 <= axis_step f m tick w.
Proof.
  intros Hd Hd' Hm Hw. unfold axis_step, friction_axis, clamp.
  set (delta := f * tick) in *. clearbody delta.
  cases; qc.
Qed.

(** C2 does not hold as stated, on two counts.

    Nonzero friction is not enough.  A body without gravity and
    acceleration, with friction -1 on the horizontal axis and velocity 1:
    the first [applyFriction] step takes the velocity from 1 to 2, away from
    zero, and after any number of [update()] calls the velocity is still at
    least 1, so it never reaches 0.

    Positive friction is not enough either, because the numbers are binary64.
    With friction 1e-17, tick 1, cap 1000 and velocity 1 the friction delta
    is positive, [1 - 1e-17] rounds to 1, and the step returns the velocity
    1 it was given: every later step does the same, and the velocity is
    never 0. *)
Lemma friction_stops_counterexample :
  let b := Sample.slider (Q2Qc (-1)) 1 in
  (vx (Body.friction b) <> 0 /\
   Body.gravity b = 0 /\
   Body.accel b = vec2 0 0 /\
   vx (Body.vel b) = 1 /\
   vx (Body.applyFriction 1 b (Body.vel b)) = of_Z 2 /\
   (forall n, 1 <= vx (Body.vel (Body.updates (first_ticks (fun _ => 1) n) b))) /\
   ~ (exists N : nat, forall n, (N <= n)%nat ->
        vx (Body.vel (Body.updates (first_ticks (fun _ => 1) n) b)) = 0)) /\
  (PrimFloat.ltb Binary64.zero (PrimFloat.mul Binary64.small Binary64.one) = true /\
   Binary64.friction_axis Binary64.small Binary64.one Binary64.one = Binary64.one /\
   Binary64.axis_step Binary64.small Binary64.cap Binary64.one Binary64.one
   = Binary64.one /\
   forall n,
     Nat.iter n (Binary64.axis_step Binary64.small Binary64.cap Binary64.one)
       Binary64.one
     = Binary64.one).
Proof.
  intros b.
  assert (Hne : vx (Body.friction b) <> 0) by numeral.
  assert (Hall : forall n, 1 <= vx (Body.vel (Body.updates (first_ticks (fun _ => 1) n) b))).
  { intros n. rewrite updates_vx by exact Hne.
    induction n as [| n IH].
    - numeral.
    - rewrite first_ticks_succ, axis_steps_snoc.
      apply axis_step_pushed; [numeral | numeral | numeral | exact IH]. }
  assert (Hstep : Binary64.axis_step Binary64.small Binary64.cap Binary64.one Binary64.one
                  = Binary64.one) by (vm_compute; reflexivity).
  split.
  - split; [exact Hne |].
    split; [numeral |].
    split; [numeral |].
    split; [numeral |].
    split; [numeral |].
    split; [exact Hall |].
    intros [N HN]. specialize (HN N (Nat.le_refl N)). specialize (Hall N).
    rewrite HN in Hall. revert Hall. numeral.
  - split; [vm_compute; reflexivity |].
    split; [vm_compute; reflexivity |].
    split; [exact Hstep |].
    intros n. induction n as [| n IH]; [reflexivity |].
    rewrite Nat.iter_succ, IH. exact Hstep.
Qed.

(** * Collision response, velocity setters, update *)

Section BodyResponse.
Context {S : Type} `{Body.Shapes S}.
Import Body.

Lemma sign_zero_iff (g : num) : sign g = 0 <-> g = 0.
Proof.
  unfold sign. split; intros Hg; cases; try reflexivity;
    try (exfalso; revert Hg; numeral); try (exfalso; qc); qc.
Qed.

Lemma gravity_dir_code (b : Body S) : num_or (sign (gravity b)) 1 = gravity_dir b.
Proof.
  unfold num_or, gravity_dir.
  destruct (decide (sign (gravity b) = 0)) as [Hs | Hs];
    destruct (decide (gravity b = 0)) as [Hg | Hg]; try reflexivity.
  - exfalso. apply Hg. apply (proj1 (sign_zero_iff (gravity b))). exact Hs.
  - exfalso. apply Hs. apply (proj2 (sign_zero_iff (gravity b))). exact Hg.
Qed.

(** C5. A call [respondToCollision(response)] whose overlap has vertical
    component 0 leaves [falling] and [jumping] as they were.  A call that
    returns and whose overlap has a nonzero vertical component sets
    [falling] to [overlap.y >= dir] and [jumping] to [overlap.y <= -dir],
    where [dir] is [sign(gravity)], taken as 1 when gravity is 0.  (The call
    throws, before it has written anything, only on a body whose ancestor
    was severed by [destroy()].) *)
Theorem respondToCollision_flags (overlap : Vector2d) (b : Body S) :
  (vy overlap = 0 ->
     falling (fst (respondToCollision overlap b)) = falling b /\
     jumping (fst (respondToCollision overlap b)) = jumping b) /\
  (vy overlap <> 0 -> snd (respondToCollision overlap b) = Ok tt ->
     falling (fst (respondToCollision overlap b)) = bool_decide (gravity_dir b <= vy overlap) /\
     jumping (fst (respondToCollision overlap b)) = bool_decide (vy overlap <= - gravity_dir b)) /\
  (snd (respondToCollision overlap b) = Ok tt <-> ancestor b <> None) /\
  (ancestor b = None -> fst (respondToCollision overlap b) = b).
Proof.
  rewrite <- gravity_dir_code. unfold respondToCollision.
  destruct (ancestor b) as [a |] eqn:Ha.
  - repeat apply conj.
    + intros Hy. rewrite (decide_False (P := vy overlap <> 0)) by auto.
      destruct (decide (vx overlap <> 0)); auto.
    + intros Hy _. rewrite (decide_True (P := vy overlap <> 0)) by auto.
      destruct (decide (vx overlap <> 0)); auto.
    + intros _. discriminate.
    + intros _. reflexivity.
    + discriminate.
  - repeat apply conj; cbn; auto; try discriminate; try congruence.
Qed.

(** C6. [setVelocity(x, y)] overwrites [accel.x] only when [x] is not 0 and
    [accel.y] only when [y] is not 0, a zero argument leaving the
    acceleration on that axis as it was; and it always sets the max velocity
    to [(x, y)], as [setMaxVelocity(x, y)] does, also when an argument is 0.
    Nothing else of the body changes. *)
Theorem setVelocity_accel (x y : num) (b : Body S) :
  vx (accel (setVelocity x y b)) = (if decide (x = 0) then vx (accel b) else x) /\
  vy (accel (setVelocity x y b)) = (if decide (y = 0) then vy (accel b) else y) /\
  maxVel (setVelocity x y b) = vec2 x y /\
  maxVel (setVelocity x y b) = maxVel (setMaxVelocity x y b) /\
  setVelocity x y b = setMaxVelocity x y (set_accel b (accel (setVelocity x y b))).
Proof.
  unfold setVelocity, setMaxVelocity.
  destruct (decide (x = 0)) as [Hx | Hx], (decide (y = 0)) as [Hy | Hy];
    destruct (decide (x <> 0)), (decide (y <> 0)); try contradiction;
    cbn; repeat split; reflexivity.
Qed.

(** C10. [update] ignores its argument: whatever is passed as [dt], the body
    after the call (velocity, flags and ancestor position) and the returned
    boolean, or the exception, are the same; gravity and friction are scaled
    by the timer tick alone. *)
Theorem update_ignores_dt (tick : num) (dt1 dt2 : value) (b : Body S) :
  update tick dt1 b = update tick dt2 b.
Proof. unfold update. reflexivity. Qed.

End BodyResponse.

Lemma respondToCollision_flags_witness :
  Body.falling (fst (Body.respondToCollision (vec2 0 (of_Z 2)) (Sample.slider 1 1))) = true /\
  Body.jumping (fst (Body.respondToCollision (vec2 0 (of_Z 2)) (Sample.slider 1 1))) = false.
Proof.
  destruct (respondToCollision_flags (vec2 0 (of_Z 2)) (Sample.slider 1 1))
    as (_ & Hy & _).
  destruct Hy as [Hf Hj]; [numeral | numeral |].
  rewrite Hf, Hj. split; numeral.
Defined.



(** * The pointer *)

(** C7. [setEvent] keeps a [pointerId] argument of 0: the field becomes 0.
    The default 1 is taken only when the argument is [undefined]; every other
    argument is stored as it is. *)
Theorem setEvent_pointerId (host : Pointer.Host) (event : Pointer.Event)
    (clientX clientY : value) (this : Pointer.Pointer) :
  Pointer.pointerId (Pointer.setEvent host event clientX clientY (Num 0) this) = Num 0 /\
  Pointer.pointerId (Pointer.setEvent host event clientX clientY Undefined this) = Num 1 /\
  (forall pointerId : value,
     Pointer.pointerId (Pointer.setEvent host event clientX clientY pointerId this) =
     if decide (pointerId = Undefined) then Num 1 else pointerId).
Proof.
  repeat split. intros pointerId. cbn.
  destruct pointerId; reflexivity.
Qed.

Lemma wheel_unit_value : Pointer.wheel_unit = Q2Qc (-1 # 40).
Proof. numeral. Qed.

(** C8. On an event of type "wheel", [setEvent] sets [deltaY] to -1/40 times
    the event's [wheelDelta]; a [wheelDelta] of 80 gives exactly -2.  (An
    event without [wheelDelta] gives NaN.) *)
Theorem setEvent_wheel_deltaY (host : Pointer.Host) (event : Pointer.Event)
    (clientX clientY pointerId : value) (this : Pointer.Pointer) :
  Pointer.e_type event = "wheel"%string ->
  (forall w : num,
     Pointer.e_wheelDelta event = Some w ->
     Pointer.deltaY (Pointer.setEvent host event clientX clientY pointerId this) =
     Num (Q2Qc (-1 # 40) * w)) /\
  (Pointer.e_wheelDelta event = Some (of_Z 80) ->
     Pointer.deltaY (Pointer.setEvent host event clientX clientY pointerId this) =
     Num (of_Z (-2))) /\
  (Pointer.e_wheelDelta event = None ->
     Pointer.deltaY (Pointer.setEvent host event clientX clientY pointerId this) = NaN).
Proof.
  intros Htype.
  assert (Hy : Pointer.deltaY (Pointer.setEvent host event clientX clientY pointerId this) =
               scale_by Pointer.wheel_unit (Pointer.e_wheelDelta event)).
  { cbn. rewrite bool_decide_eq_true_2 by exact Htype. reflexivity. }
  rewrite Hy, wheel_unit_value. repeat split.
  - intros w ->. reflexivity.
  - intros ->. cbn. f_equal. numeral.
  - intros ->. reflexivity.
Qed.

Lemma setEvent_wheel_deltaY_witness :
  Pointer.deltaY
    (Pointer.setEvent Sample.host (Sample.wheel_event 80) (Num 0) (Num 0) (Num 0) Sample.pointer) =
  Num (of_Z (-2)).
Proof.
  apply (setEvent_wheel_deltaY Sample.host (Sample.wheel_event 80) (Num 0) (Num 0) (Num 0)
           Sample.pointer); reflexivity.
Defined.

(** * The state manager *)

Module StateFacts.
Import State.

(** A manager is taken apart into its fields before a function is run on
    it. *)
Ltac fields m :=
  destruct m as [st af pa reg fd osc ea pt cp cr cs ct tr df fg nf].

(** Case analysis on the tests a manager function makes. *)
Ltac branches :=
  cbn;
  repeat (match goal with
          | |- context [decide ?P] => destruct (decide P)
          | |- context [match ?x with Some _ => _ | None => _ end] => destruct x eqn:?
          | |- context [match ?x with [] => _ | _ :: _ => _ end] => destruct x eqn:?
          | |- context [if ?b then _ else _] => destruct b eqn:?
          end; cbn).

Lemma registry_startRunLoop m : _screenObject (_startRunLoop m) = _screenObject m.
Proof. fields m. unfold _startRunLoop. branches; reflexivity. Qed.

Lemma registry_switchState state m :
  _screenObject (_switchState state m) = _screenObject m.
Proof.
  fields m. unfold _switchState, _startRunLoop, onSwitchComplete_closure.
  branches; reflexivity.
Qed.

Lemma registry_stop music now m : _screenObject (stop music now m) = _screenObject m.
Proof. fields m. unfold stop, call_if_function. branches; reflexivity. Qed.

Lemma registry_pause music now m : _screenObject (pause music now m) = _screenObject m.
Proof. fields m. unfold pause, call_if_function. branches; reflexivity. Qed.

Lemma registry_restart music now m : _screenObject (restart music now m) = _screenObject m.
Proof.
  fields m. unfold restart, call_if_function, _startRunLoop. branches; reflexivity.
Qed.

Lemma registry_resume music now m : _screenObject (resume music now m) = _screenObject m.
Proof.
  fields m. unfold resume, call_if_function, _resumeRunLoop. branches; reflexivity.
Qed.

Lemma registry_change state args m :
  _screenObject (fst (change state args m)) = _screenObject m.
Proof. fields m. unfold change. branches; reflexivity. Qed.

Lemma registry_run_deferred m : _screenObject (run_deferred m) = _screenObject m.
Proof.
  unfold run_deferred. destruct (deferred m) eqn:Hd; [reflexivity |].
  rewrite registry_switchState. fields m. reflexivity.
Qed.

Lemma registry_fade_complete m : _screenObject (fade_complete m) = _screenObject m.
Proof. fields m. unfold fade_complete. branches; reflexivity. Qed.

Lemma registry_frame time m : _screenObject (frame time m) = _screenObject m.
Proof. fields m. unfold frame, _renderFrame. branches; reflexivity. Qed.

Lemma registry_exec (c : call) (m : manager) (state : Z) :
  is_Some (_screenObject (exec c m) !! state) <->
  is_Some (_screenObject m !! state) \/ registers state c.
Proof.
  destruct c as [loading | s so | s enable | effect c d | s args | music now | music now
                | music now | music now | p r s t | | | time]; cbn [exec registers].
  - fields m. unfold init, set. cbn. rewrite lookup_insert. unfold LOADING.
    destruct (decide (0%Z = state)) as [<- | Hne]; split; intros Hs;
      try (right; reflexivity); try (left; exact Hs); eauto.
    destruct Hs as [Hs | Hs]; [exact Hs | congruence].
  - fields m. destruct so as [so | printed]; cbn.
    + rewrite lookup_insert.
      destruct (decide (s = state)) as [<- | Hne]; split; intros Hs; eauto.
      destruct Hs as [Hs | Hs]; [exact Hs | congruence].
    + tauto.
  - fields m. unfold setTransition. cbn. destruct (reg !! s) as [e |] eqn:He; cbn.
    + rewrite lookup_insert. destruct (decide (s = state)) as [<- | Hne].
      * rewrite He. split; intros _; eauto.
      * tauto.
    + tauto.
  - fields m. unfold set_transition_effect. destruct (decide _); cbn; tauto.
  - rewrite registry_change. tauto.
  - rewrite registry_stop. tauto.
  - rewrite registry_pause. tauto.
  - rewrite registry_restart. tauto.
  - rewrite registry_resume. tauto.
  - fields m. cbn. tauto.
  - rewrite registry_run_deferred. tauto.
  - rewrite registry_fade_complete. tauto.
  - rewrite registry_frame. tauto.
Qed.

Lemma run_snoc (h : list call) (c : call) (m : manager) :
  run (h ++ [c]) m = exec c (run h m).
Proof. unfold run. rewrite fold_left_app. reflexivity. Qed.

(** The registry holds exactly the states [set] was given a screen for. *)
Lemma registry_history (h : list call) (state : Z) :
  is_Some (_screenObject (run h initial) !! state) <-> was_set state h.
Proof.
  unfold was_set. induction h as [| c h IH] using rev_ind.
  - cbn. rewrite lookup_empty. split.
    + intros [e He]. discriminate.
    + intros Hex. inversion Hex.
  - rewrite run_snoc, registry_exec, IH, Exists_app, Exists_cons, Exists_nil.
    tauto.
Qed.

Lemma switchState_effects (state : Z) (m : manager) (e : entry) :
  _screenObject m !! state = Some e ->
  _state (_switchState state m) = state /\
  trace (_switchState state m) =
    trace m
    ++ [CancelAnimationFrame (_animFrameId m)]
    ++ match _screenObject m !! _state m with
       | Some o => [ScreenDestroy (screen o)]
       | None => []
       end
    ++ [ScreenReset (screen e) (default [] (_extraArgs m))]
    ++ (if decide (state <> (-1)%Z)
        then [TimerReset; RequestAnimationFrame (next_frame m)] else [])
    ++ (if _onSwitchComplete m
        then [FadeOut (color (_fade m)) (duration (_fade m))] else [])
    ++ [Repaint] /\
  _animFrameId (_switchState state m) =
    (if decide (state <> (-1)%Z) then Zpos (next_frame m) else (-1)%Z).
Proof.
  intros He. fields m. cbn in He.
  unfold _switchState, _startRunLoop, onSwitchComplete_closure. cbn.
  destruct (reg !! st) as [e0 |]; cbn; rewrite He; cbn.
  all: destruct (decide (state <> (-1)%Z)) as [Hs | Hs].
  all: try (rewrite decide_True by (split; [reflexivity | exact Hs])).
  all: try (rewrite decide_False by (intros [_ Hn]; contradiction)).
  all: cbn; destruct osc; cbn; repeat split; rewrite <- ?app_assoc; reflexivity.
Qed.

(** C3. For a registered state [X] other than the current one, [change(X)]
    returns normally and does not perform the switch itself: the current
    state, the run loop and the registry are as before, no [destroy()] and
    no [reset()] of a screen has been called during the call, and the switch
    to [X] is pending, queued as a deferred call, or, with a fade, waiting
    for the end of the fade that was started, which then queues it.  The
    deferred call, when the host runs it, stops the run loop, destroys the
    outgoing screen if there is one, makes [X] the current state, resets the
    new screen with the extra arguments, restarts the run loop (the loop
    does not start for the state -1), invokes the switch-complete callback
    if it is set, and forces a repaint, in this order. *)
Theorem change_defers (m : manager) (X : Z) (extraArgs : list value) (e : entry) :
  _screenObject m !! X = Some e ->
  X <> _state m ->
  let m' := fst (change X extraArgs m) in
  snd (change X extraArgs m) = Ok tt /\
  _state m' = _state m /\
  _animFrameId m' = _animFrameId m /\
  _screenObject m' = _screenObject m /\
  (forall so, ScreenDestroy so ∈ trace m' -> ScreenDestroy so ∈ trace m) /\
  (forall so args, ScreenReset so args ∈ trace m' -> ScreenReset so args ∈ trace m) /\
  (if truthy (duration (_fade m)) && transition e
   then trace m' = trace m ++ [FadeIn (color (_fade m)) (duration (_fade m)) X] /\
        fading m' = fading m ++ [X] /\
        deferred m' = deferred m /\
        (fading m = [] -> deferred (fade_complete m') = deferred m ++ [X])
   else trace m' = trace m /\
        fading m' = fading m /\
        deferred m' = deferred m ++ [X]) /\
  (deferred m' = [X] -> run_deferred m' = _switchState X (set_deferred m' [])) /\
  (forall m1 : manager,
     _screenObject m1 !! X = Some e ->
     _state (_switchState X m1) = X /\
     trace (_switchState X m1) =
       trace m1
       ++ [CancelAnimationFrame (_animFrameId m1)]
       ++ match _screenObject m1 !! _state m1 with
          | Some o => [ScreenDestroy (screen o)]
          | None => []
          end
       ++ [ScreenReset (screen e) (default [] (_extraArgs m1))]
       ++ (if decide (X <> (-1)%Z)
           then [TimerReset; RequestAnimationFrame (next_frame m1)] else [])
       ++ (if _onSwitchComplete m1
           then [FadeOut (color (_fade m1)) (duration (_fade m1))] else [])
       ++ [Repaint]).
Proof.
  intros He Hne m'. subst m'. fields m. cbn in He, Hne.
  unfold change, isCurrent. cbn. rewrite He.
  rewrite bool_decide_eq_false_2 by congruence.
  destruct (truthy (duration fd) && transition e); cbn.
  - repeat split; auto.
    + intros so Hin. apply elem_of_app in Hin as [Hin | Hin]; [exact Hin |].
      apply list_elem_of_singleton in Hin. discriminate.
    + intros so args Hin. apply elem_of_app in Hin as [Hin | Hin]; [exact Hin |].
      apply list_elem_of_singleton in Hin. discriminate.
    + intros Hf. unfold fade_complete. cbn. rewrite Hf. reflexivity.
    + intros Hd. unfold run_deferred. cbn. rewrite Hd. reflexivity.
    + apply (switchState_effects X m1 e). assumption.
    + apply (switchState_effects X m1 e). assumption.
  - repeat split; auto.
    + intros Hd. unfold run_deferred. cbn. rewrite Hd. reflexivity.
    + apply (switchState_effects X m1 e). assumption.
    + apply (switchState_effects X m1 e). assumption.
Qed.

(** C9. When no screen object is registered under the current state
    identifier, as in the module as it is loaded, where the current state is
    -1, [current()] throws a TypeError: it reads [.screen] of the missing
    registry entry.  It returns no screen, and no sentinel. *)
Theorem current_unregistered (m : manager) :
  _screenObject m !! _state m = None ->
  (exists what, current m = Throw (TypeError what)) /\
  (forall so, current m <> Ok so).
Proof.
  intros Hm. unfold current. rewrite Hm. split; [eauto | discriminate].
Qed.

(** C4, as the code has it.  After any history of calls, [change(state)]
    throws if and only if [set] was never given a screen object for [state];
    the error is raised before anything is written and its message contains
    the state identifier.  If [state] is registered and equals the current
    state, [change] returns at once and leaves the manager as it was: no
    screen is destroyed or reset and no switch is scheduled. *)
Theorem change_lookup (h : list call) (state : Z) (extraArgs : list value) :
  let m := run h initial in
  ((exists msg, snd (change state extraArgs m) = Throw (MeError msg) /\
                includes (pretty state) msg) <->
   ~ was_set state h) /\
  (forall e, snd (change state extraArgs m) = Throw e ->
             fst (change state extraArgs m) = m /\ ~ was_set state h) /\
  (was_set state h -> state = _state m -> change state extraArgs m = (m, Ok tt)).
Proof.
  intros m. pose proof (registry_history h state) as Hreg. fold m in Hreg.
  unfold change, isCurrent.
  destruct (_screenObject m !! state) as [e |] eqn:He.
  - assert (Hset : was_set state h) by (apply Hreg; eauto).
    repeat apply conj.
    + intros (msg & Hthrow & _). exfalso.
      destruct (bool_decide (_state m = state));
        [| destruct (truthy _ && transition e)]; discriminate.
    + intros Hno. contradiction.
    + intros e' Hthrow. exfalso.
      destruct (bool_decide (_state m = state));
        [| destruct (truthy _ && transition e)]; discriminate.
    + intros _ Hcur. rewrite bool_decide_eq_true_2 by congruence. reflexivity.
  - assert (Hno : ~ was_set state h).
    { intros Hset. apply Hreg in Hset. destruct Hset as [e He']. congruence. }
    repeat apply conj.
    + intros _. exact Hno.
    + intros _. eexists. split; [reflexivity |].
      exists "Undefined ScreenObject for state '"%string, "'"%string. reflexivity.
    + intros e' _. split; [reflexivity | exact Hno].
    + intros Hset. contradiction.
Qed.

(** C4 does not hold when the current state is the unregistered state -1 of
    the freshly loaded module: [change(-1)] is a call with the current state,
    and it throws the lookup error instead of returning. *)
Lemma change_lookup_counterexample :
  isCurrent (-1) initial = true /\
  exists msg, change (-1) [] initial = (initial, Throw (MeError msg)).
Proof. split; [reflexivity | eexists; reflexivity]. Qed.

End StateFacts.

Lemma change_defers_witness :
  snd (State.change State.PLAY [] Sample.registered) = Ok tt /\
  State._state (fst (State.change State.PLAY [] Sample.registered)) = (-1)%Z /\
  State.deferred (fst (State.change State.PLAY [] Sample.registered)) = [State.PLAY] /\
  State.trace (fst (State.change State.PLAY [] Sample.registered)) = [].
Proof.
  destruct (StateFacts.change_defers Sample.registered State.PLAY []
              {| State.screen := 13%nat; State.transition := true |})
    as (Hok & Hst & _ & _ & _ & _ & Hq & _).
  - vm_compute. reflexivity.
  - vm_compute. discriminate.
  - cbn in Hq. destruct Hq as (Htr & _ & Hdf).
    split; [exact Hok |]. split; [exact Hst |]. split; [exact Hdf | exact Htr].
Defined.

Lemma current_unregistered_witness :
  exists what, State.current State.initial = Throw (TypeError what).
Proof.
  apply (StateFacts.current_unregistered State.initial). reflexivity.
Defined.

Lemma change_lookup_witness :
  let h := [State.Init 10%nat;
            State.Set_ State.PLAY (State.ScreenObject 13%nat);
            State.Change State.PLAY [];
            State.HostDeferred] in
  State.change State.PLAY [Num 1] (State.run h State.initial) =
  (State.run h State.initial, Ok tt).
Proof.
  intros h.
  apply (proj2 (proj2 (StateFacts.change_lookup h State.PLAY [Num 1]))).
  - unfold State.was_set, h. apply Exists_cons_tl, Exists_cons_hd. reflexivity.
  - vm_compute. reflexivity.
Defined.

(** * More on the state manager *)

Module StateMore.
Import State StateFacts.

Lemma consistent_initial : consistent initial.
Proof.
  unfold consistent, registered. cbn. repeat split.
  - intros Hne. contradiction.
  - left. reflexivity.
  - intros s Hin. inversion Hin.
  - intros s Hin. inversion Hin.
Qed.

(** The goals left after a function has been run on a manager taken apart. *)
Ltac consistency :=
  unfold consistent, registered in *; cbn in *;
  repeat match goal with
         | H : _ /\ _ |- _ => destruct H
         end;
  repeat split; intros; subst; cbn in *;
  repeat match goal with
         | H : _ ∈ _ ++ _ |- _ => apply elem_of_app in H; destruct H
         | H : _ ∈ [_] |- _ => apply list_elem_of_singleton in H; subst
         end;
  first [ congruence
        | tauto
        | eauto using list_elem_of_further, list_elem_of_here ].

Lemma consistent_switchState (state : Z) (m : manager) :
  consistent m -> registered m state -> consistent (_switchState state m).
Proof.
  intros Hm [e He]. fields m. cbn in He.
  unfold _switchState, _startRunLoop, onSwitchComplete_closure. cbn.
  destruct (reg !! st) as [e0 |] eqn:Hst; cbn; rewrite He; branches; consistency.
Qed.

Lemma registered_insert (s k : Z) (e : entry) (reg : gmap Z entry) :
  is_Some (reg !! s) -> is_Some (<[k := e]> reg !! s).
Proof.
  intros Hs. rewrite lookup_insert. destruct (decide (k = s)); [eauto | exact Hs].
Qed.

Lemma consistent_exec (c : call) (m : manager) :
  consistent m -> consistent (exec c m).
Proof.
  intros Hm.
  destruct c as [loading | s so | s enable | effect c d | s args | music now | music now
                | music now | music now | p r s t | | | time]; cbn [exec].
  - fields m. unfold init, set. cbn. consistency; try (apply registered_insert; eauto).
    match goal with
    | H : _ \/ _ |- _ => destruct H as [-> | H]; [tauto | right; apply registered_insert, H]
    end.
  - fields m. destruct so as [so | printed]; cbn; [| exact Hm].
    consistency; try (apply registered_insert; eauto).
    match goal with
    | H : _ \/ _ |- _ => destruct H as [-> | H]; [tauto | right; apply registered_insert, H]
    end.
  - fields m. unfold setTransition. cbn. destruct (reg !! s) as [e |]; cbn; [| exact Hm].
    consistency; try (apply registered_insert; eauto).
    match goal with
    | H : _ \/ _ |- _ => destruct H as [-> | H]; [tauto | right; apply registered_insert, H]
    end.
  - fields m. unfold set_transition_effect. branches; consistency.
  - fields m. unfold change, isCurrent. cbn.
    destruct (reg !! s) as [e |] eqn:He; cbn; [| exact Hm].
    branches; consistency.
  - fields m. unfold stop, call_if_function. branches; consistency.
  - fields m. unfold pause, call_if_function. branches; consistency.
  - fields m. unfold restart, call_if_function, _startRunLoop. branches; consistency.
  - fields m. unfold resume, call_if_function, _resumeRunLoop. branches; consistency.
  - fields m. consistency.
  - unfold run_deferred. destruct (deferred m) as [| s rest] eqn:Hd; [exact Hm |].
    apply consistent_switchState.
    + fields m. cbn in Hd. subst df. consistency.
    + destruct Hm as (_ & _ & Hdf & _). fields m. cbn in *. subst df.
      apply Hdf, list_elem_of_here.
  - fields m. unfold fade_complete. branches; consistency.
  - fields m. unfold frame, _renderFrame. branches; consistency.
Qed.

(** X1. After every history of calls and host steps, starting from the
    module as it is loaded: the run loop runs only in a state other than -1,
    the current state is -1 or a registered state, and every switch that is
    still pending, deferred or waiting for its fade, has a registered
    target. *)
Theorem consistent_run (h : list call) : consistent (run h initial).
Proof.
  induction h as [| c h IH] using rev_ind.
  - exact consistent_initial.
  - rewrite run_snoc. apply consistent_exec, IH.
Qed.

(** X2. After every history, [current()] returns the screen registered for
    the current state as soon as the state is no longer -1; it can only
    throw while the state is still -1 and no screen was ever set for -1. *)
Theorem current_after_switch (h : list call) :
  (_state (run h initial) <> (-1)%Z ->
   exists e, _screenObject (run h initial) !! _state (run h initial) = Some e /\
             current (run h initial) = Ok (screen e)) /\
  (forall x, current (run h initial) = Throw x ->
             _state (run h initial) = (-1)%Z /\ ~ was_set (-1) h).
Proof.
  destruct (consistent_run h) as (_ & Hcur & _).
  unfold current, registered in *. split.
  - intros Hne. destruct Hcur as [Hcur | [e He]]; [contradiction |].
    exists e. rewrite He. auto.
  - intros x Hx.
    destruct (_screenObject (run h initial) !! _state (run h initial)) as [e |] eqn:He;
      [discriminate |].
    destruct Hcur as [Hcur | [e He']]; [| congruence].
    split; [exact Hcur |]. intros Hset. apply registry_history in Hset.
    rewrite Hcur in He. destruct Hset as [e' He']. congruence.
Qed.

(** X3. A change without fade to a registered state [X] other than the
    current one queues the switch behind every switch that is already
    pending.  When no other switch is pending, the host's next deferred call
    is this one, and after it [X] is the current state, [current()] returns
    its screen, the outgoing screen (if any) is destroyed before the new one
    is reset, the new screen's [reset] receives exactly the extra arguments
    of [change], the run loop is running again unless [X] is -1, and nothing
    is left pending. *)
Theorem change_then_deferred (m : manager) (X : Z) (extraArgs : list value) (e : entry) :
  _screenObject m !! X = Some e ->
  X <> _state m ->
  truthy (duration (_fade m)) && transition e = false ->
  deferred (fst (change X extraArgs m)) = deferred m ++ [X] /\
  fading (fst (change X extraArgs m)) = fading m /\
  (deferred m = [] ->
   let m2 := run_deferred (fst (change X extraArgs m)) in
   _state m2 = X /\
   isCurrent X m2 = true /\
   current m2 = Ok (screen e) /\
   deferred m2 = [] /\
   isRunning m2 = bool_decide (X <> (-1)%Z) /\
   trace m2 =
     trace m
     ++ [CancelAnimationFrame (_animFrameId m)]
     ++ match _screenObject m !! _state m with
        | Some o => [ScreenDestroy (screen o)]
        | None => []
        end
     ++ [ScreenReset (screen e) extraArgs]
     ++ (if decide (X <> (-1)%Z)
         then [TimerReset; RequestAnimationFrame (next_frame m)] else [])
     ++ (if _onSwitchComplete m
         then [FadeOut (color (_fade m)) (duration (_fade m))] else [])
     ++ [Repaint]).
Proof.
  intros He Hne Hfade. fields m. cbn in He, Hne, Hfade.
  unfold change, isCurrent. cbn. rewrite He, Hfade.
  rewrite bool_decide_eq_false_2 by congruence. cbn.
  split; [reflexivity |]. split; [reflexivity |].
  intros Hd. subst df. cbn.
  unfold run_deferred. cbn.
  match goal with |- context [_switchState X ?m1] =>
    destruct (switchState_effects X m1 e He) as (Hs & Ht & Ha);
    pose proof (registry_switchState X m1) as Hr;
    set (m2 := _switchState X m1) in *
  end.
  cbn in Ht, Ha, Hr.
  assert (Hq : deferred m2 = []).
  { subst m2. unfold _switchState, _startRunLoop, onSwitchComplete_closure. cbn.
    destruct (reg !! st); cbn; rewrite He; branches; reflexivity. }
  clearbody m2. unfold current, isRunning. rewrite Hs, Hr, He, Ha, Ht, Hq.
  repeat split.
  - apply bool_decide_eq_true_2. reflexivity.
  - destruct (decide (X <> (-1)%Z)) as [Hx | Hx].
    + rewrite !bool_decide_eq_true_2; [reflexivity | exact Hx | discriminate].
    + rewrite !bool_decide_eq_false_2; [reflexivity | exact Hx | intros Hn; apply Hn; reflexivity].
  - destruct extraArgs; reflexivity.
Qed.

(** X4. A change with fade to a registered state [X] other than the
    current one starts the fade to the configured colour at once and does
    nothing else: the fade waits behind every fade that is already running,
    and the pending switches are as they were.  When no other fade is
    running and no switch is pending, the end of the fade defers the switch,
    and when the deferred call runs, the screens are switched and the
    switch-complete callback starts the fade back, before the repaint. *)
Theorem change_with_fade (m : manager) (X : Z) (extraArgs : list value) (e : entry) :
  _screenObject m !! X = Some e ->
  X <> _state m ->
  truthy (duration (_fade m)) && transition e = true ->
  let m1 := fst (change X extraArgs m) in
  let m2 := fade_complete m1 in
  let m3 := run_deferred m2 in
  trace m1 = trace m ++ [FadeIn (color (_fade m)) (duration (_fade m)) X] /\
  _state m1 = _state m /\ deferred m1 = deferred m /\ fading m1 = fading m ++ [X] /\
  (deferred m = [] -> fading m = [] ->
   trace m2 = trace m1 /\ _state m2 = _state m /\ deferred m2 = [X] /\ fading m2 = [] /\
   _state m3 = X /\
   trace m3 =
     trace m1
     ++ [CancelAnimationFrame (_animFrameId m)]
     ++ match _screenObject m !! _state m with
        | Some o => [ScreenDestroy (screen o)]
        | None => []
        end
     ++ [ScreenReset (screen e) extraArgs]
     ++ (if decide (X <> (-1)%Z)
         then [TimerReset; RequestAnimationFrame (next_frame m)] else [])
     ++ [FadeOut (color (_fade m)) (duration (_fade m)); Repaint]).
Proof.
  intros He Hne Hfade m1 m2 m3. subst m1 m2 m3.
  fields m. cbn in He, Hne, Hfade.
  unfold change, isCurrent. cbn. rewrite He, Hfade.
  rewrite bool_decide_eq_false_2 by congruence. cbn.
  split; [reflexivity |]. split; [reflexivity |].
  split; [reflexivity |]. split; [reflexivity |].
  intros Hd Hf. subst df fg. cbn.
  unfold fade_complete. cbn. unfold run_deferred. cbn.
  match goal with |- context [_switchState X ?m1] =>
    destruct (switchState_effects X m1 e He) as (Hs & Ht & _)
  end.
  cbn in Ht. rewrite Hs, Ht.
  repeat split. destruct extraArgs; cbn; rewrite <- ?app_assoc; reflexivity.
Qed.

Lemma onSwitchComplete_exec (c : call) (m : manager) :
  _onSwitchComplete m = true -> _onSwitchComplete (exec c m) = true.
Proof.
  intros Hm.
  destruct c as [loading | s so | s enable | effect c d | s args | music now | music now
                | music now | music now | p r s t | | | time]; cbn [exec];
    fields m; cbn in Hm; subst osc.
  - reflexivity.
  - destruct so; reflexivity.
  - unfold setTransition. branches; reflexivity.
  - unfold set_transition_effect. branches; reflexivity.
  - unfold change. branches; reflexivity.
  - unfold stop, call_if_function. branches; reflexivity.
  - unfold pause, call_if_function. branches; reflexivity.
  - unfold restart, call_if_function, _startRunLoop. branches; reflexivity.
  - unfold resume, call_if_function, _resumeRunLoop. branches; reflexivity.
  - reflexivity.
  - unfold run_deferred, _switchState, _startRunLoop, onSwitchComplete_closure.
    branches; reflexivity.
  - unfold fade_complete. branches; reflexivity.
  - unfold frame, _renderFrame. branches; reflexivity.
Qed.

(** X5. The switch-complete callback is never cleared.  Once a change with
    fade has stored it, it stays stored through every later call, and every
    later switch to a registered state calls [viewport.fadeOut] with the
    fade settings of that moment, also when the fade has been turned off in
    between. *)
Theorem fadeOut_sticks (h : list call) (m : manager) :
  _onSwitchComplete m = true ->
  _onSwitchComplete (run h m) = true /\
  (forall X e,
     _screenObject (run h m) !! X = Some e ->
     FadeOut (color (_fade (run h m))) (duration (_fade (run h m)))
       ∈ trace (_switchState X (run h m))).
Proof.
  intros Hm.
  assert (Hrun : _onSwitchComplete (run h m) = true).
  { induction h as [| c h IH] using rev_ind; [exact Hm |].
    rewrite run_snoc. apply onSwitchComplete_exec, IH. }
  split; [exact Hrun |]. intros X e He.
  destruct (switchState_effects X (run h m) e He) as (_ & -> & _).
  rewrite Hrun. rewrite !elem_of_app. do 5 right. left. apply list_elem_of_here.
Qed.

(** X6. [stop] followed by [restart]: from a running manager that is not
    in the LOADING state, [stop] cancels the requested frame and records the
    time; [restart] then requests a new frame, turns the recorded time into
    the time spent stopped, and publishes it on the restart channel.  The
    current state is the same throughout. *)
Theorem stop_restart (m : manager) (music1 music2 : value) (now1 now2 : num) :
  _state m <> LOADING -> _state m <> (-1)%Z -> isRunning m = true ->
  let m1 := stop music1 now1 m in
  let m2 := restart music2 now2 m1 in
  isRunning m1 = false /\ _pauseTime m1 = now1 /\ _state m1 = _state m /\
  trace m1 =
    trace m ++ [CancelAnimationFrame (_animFrameId m)]
    ++ (if decide (music1 = Bool true) then [PauseTrack] else [])
    ++ [Publish STATE_STOP []]
    ++ match onStop m with Some f => [Invoke f] | None => [] end /\
  isRunning m2 = true /\ _pauseTime m2 = now2 - now1 /\ _state m2 = _state m /\
  trace m2 =
    trace m1 ++ [TimerReset; RequestAnimationFrame (next_frame m)]
    ++ (if decide (music2 = Bool true) then [ResumeTrack] else [])
    ++ [Repaint; Publish STATE_RESTART [now2 - now1]]
    ++ match onRestart m with Some f => [Invoke f] | None => [] end.
Proof.
  intros Hl Hs Hr m1 m2. subst m1 m2. fields m. cbn in Hl, Hs, Hr.
  unfold isRunning in *. cbn in Hr. apply bool_decide_eq_true_1 in Hr.
  unfold stop, isRunning. cbn.
  rewrite decide_True by (split; [exact Hl | apply bool_decide_eq_true_2; exact Hr]).
  unfold restart, isRunning, call_if_function, _startRunLoop.
  destruct (decide (music1 = Bool true)), cs; cbn;
    (destruct (decide (_ /\ st <> (-1)%Z)) as [_ | Hn];
       [| exfalso; apply Hn; split; [reflexivity | exact Hs]]);
    destruct (decide (music2 = Bool true)), ct; cbn;
    repeat split; rewrite <- ?app_assoc; reflexivity.
Qed.


(** X8. Redundant lifecycle calls are silent: [stop] does nothing in the
    LOADING state or when the run loop is not running, [pause] nothing in
    the LOADING state or when already paused, [restart] nothing when the run
    loop is running, [resume] nothing when not paused; so a second [stop] or
    [pause] in a row changes nothing. *)
Theorem lifecycle_noops (m : manager) (music music' : value) (now now' : num) :
  (_state m = LOADING \/ isRunning m = false -> stop music now m = m) /\
  (_state m = LOADING \/ isPaused m = true -> pause music now m = m) /\
  (isRunning m = true -> restart music now m = m) /\
  (isPaused m = false -> resume music now m = m) /\
  stop music' now' (stop music now m) = stop music now m /\
  pause music' now' (pause music now m) = pause music now m.
Proof.
  fields m. unfold stop, pause, restart, resume, isRunning, isPaused, call_if_function.
  cbn. repeat split.
  - intros Hm. rewrite decide_False; [reflexivity |]. intros [Hl Hr].
    destruct Hm as [Hm | Hm]; congruence.
  - intros Hm. rewrite decide_False; [reflexivity |]. intros [Hl Hr].
    destruct Hm as [Hm | Hm]; congruence.
  - intros ->. reflexivity.
  - intros ->. reflexivity.
  - destruct (decide (st <> LOADING /\ bool_decide (af <> (-1)%Z) = true)) as [Hd | Hd];
      cbn.
    + destruct (decide (music = Bool true)), cs; cbn;
        (rewrite decide_False; [reflexivity | intros [_ Hr]; discriminate]).
    + rewrite decide_False by exact Hd. reflexivity.
  - destruct (decide (st <> LOADING /\ pa = false)) as [Hd | Hd]; cbn.
    + destruct (decide (music = Bool true)), cp; cbn;
        (rewrite decide_False; [reflexivity | intros [_ Hr]; discriminate]).
    + rewrite decide_False by exact Hd. reflexivity.
Qed.

(** X9. [set(state, so)] with a screen object registers it for [state] with
    transitions enabled, replacing an earlier entry and its transition
    setting, and touches no other state; with anything else it throws and
    registers nothing.  [setTransition] changes the flag of a registered
    state only, and throws a TypeError for a state that is not registered. *)
Theorem set_registers (m : manager) (state : Z) (so : Screen) (printed : string)
    (enable : bool) :
  snd (set state (ScreenObject so) m) = Ok tt /\
  _screenObject (fst (set state (ScreenObject so) m)) !! state =
    Some {| screen := so; transition := true |} /\
  (forall s, s <> state ->
     _screenObject (fst (set state (ScreenObject so) m)) !! s = _screenObject m !! s) /\
  set state (NotAScreen printed) m =
    (m, Throw (MeError (printed ++ " is not an instance of me.ScreenObject"))) /\
  (forall e, _screenObject m !! state = Some e ->
     snd (setTransition state enable m) = Ok tt /\
     _screenObject (fst (setTransition state enable m)) !! state =
       Some {| screen := screen e; transition := enable |} /\
     _screenObject (fst (set state (ScreenObject so) (fst (setTransition state enable m))))
       !! state = Some {| screen := so; transition := true |}) /\
  (_screenObject m !! state = None ->
     fst (setTransition state enable m) = m /\
     exists what, snd (setTransition state enable m) = Throw (TypeError what)).
Proof.
  fields m. unfold set, setTransition. cbn.
  split; [reflexivity |]. split; [apply lookup_insert_eq |].
  split; [intros s Hs; apply lookup_insert_ne; congruence |].
  split; [reflexivity |]. split.
  - intros e0 He. rewrite He. cbn.
    split; [reflexivity |]. split; apply lookup_insert_eq.
  - intros ->. cbn. eauto.
Qed.

(** X10. A frame: while the run loop is running, a frame that fires updates
    the game, draws it and requests the next frame, so the loop keeps
    running; once [stop] has cancelled the request, or while the loop has
    never been started, a frame does nothing. *)
Theorem frame_loop (m : manager) (time : num) (music : value) (now : num) :
  (isRunning m = true ->
     trace (frame time m) =
       trace m ++ [GameUpdate time; GameDraw; RequestAnimationFrame (next_frame m)] /\
     _animFrameId (frame time m) = Zpos (next_frame m) /\
     isRunning (frame time m) = true /\
     next_frame (frame time m) = Pos.succ (next_frame m)) /\
  (isRunning m = false -> frame time m = m) /\
  (_state m <> LOADING -> frame time (stop music now m) = stop music now m).
Proof.
  fields m. unfold frame, _renderFrame, stop, isRunning, call_if_function. cbn.
  split; [| split].
  - intros Hr. rewrite Hr. cbn.
    pose proof (bool_decide_eq_true_1 _ Hr) as Hr'.
    rewrite decide_True by exact Hr'.
    cbn. rewrite <- !app_assoc. repeat split.
  - intros ->. reflexivity.
  - intros Hl. destruct (bool_decide (af <> (-1)%Z)) eqn:Hr.
    + rewrite decide_True by (split; [exact Hl | reflexivity]).
      destruct (decide (music = Bool true)), cs; reflexivity.
    + rewrite decide_False by (intros [_ Hd]; discriminate). cbn. rewrite Hr. reflexivity.
Qed.

End StateMore.

Lemma current_after_switch_witness :
  let h := [State.Init 10%nat;
            State.Set_ State.PLAY (State.ScreenObject 13%nat);
            State.Change State.PLAY [];
            State.HostDeferred] in
  exists e, State._screenObject (State.run h State.initial) !! State.PLAY = Some e /\
            State.current (State.run h State.initial) = Ok (State.screen e).
Proof.
  intros h.
  destruct (StateMore.current_after_switch h) as [Hcur _].
  apply Hcur. vm_compute. discriminate.
Defined.

Lemma change_then_deferred_witness :
  State._state (State.run_deferred (fst (State.change State.PLAY [Num 1] Sample.registered)))
    = State.PLAY /\
  State.trace (State.run_deferred (fst (State.change State.PLAY [Num 1] Sample.registered)))
    = [State.CancelAnimationFrame (-1); State.ScreenReset 13%nat [Num 1];
       State.TimerReset; State.RequestAnimationFrame 1%positive; State.Repaint].
Proof.
  destruct (StateMore.change_then_deferred Sample.registered State.PLAY [Num 1]
              {| State.screen := 13%nat; State.transition := true |})
    as (_ & _ & Hrun).
  - vm_compute. reflexivity.
  - vm_compute. discriminate.
  - vm_compute. reflexivity.
  - destruct Hrun as (Hs & _ & _ & _ & _ & Ht); [vm_compute; reflexivity |].
    split; [exact Hs |]. rewrite Ht. vm_compute. reflexivity.
Defined.

Lemma change_with_fade_witness :
  State.trace (fst (State.change State.PLAY [] Sample.faded)) =
    [State.FadeIn (Str "#000000") (Num (of_Z 250)) State.PLAY] /\
  State._state (State.run_deferred
                  (State.fade_complete (fst (State.change State.PLAY [] Sample.faded)))) =
    State.PLAY.
Proof.
  destruct (StateMore.change_with_fade Sample.faded State.PLAY []
              {| State.screen := 13%nat; State.transition := true |})
    as (Ht & _ & _ & _ & Hrun).
  - vm_compute. reflexivity.
  - vm_compute. discriminate.
  - vm_compute. reflexivity.
  - destruct Hrun as (_ & _ & _ & _ & Hs & _);
      [vm_compute; reflexivity | vm_compute; reflexivity |].
    split; [| exact Hs]. rewrite Ht. vm_compute. reflexivity.
Defined.

Lemma fadeOut_sticks_witness :
  State._onSwitchComplete
    (State.run [State.Transition (Str "fade") (Str "") (Num 0); State.HostFadeComplete]
               (fst (State.change State.PLAY [] Sample.faded))) = true.
Proof.
  apply (StateMore.fadeOut_sticks
           [State.Transition (Str "fade") (Str "") (Num 0); State.HostFadeComplete]
           (fst (State.change State.PLAY [] Sample.faded))).
  vm_compute. reflexivity.
Defined.

Lemma stop_restart_witness :
  State.isRunning (State.stop (Bool true) (of_Z 100) Sample.playing) = false /\
  State._pauseTime
    (State.restart (Bool true) (of_Z 160) (State.stop (Bool true) (of_Z 100) Sample.playing))
    = of_Z 160 - of_Z 100.
Proof.
  destruct (StateMore.stop_restart Sample.playing (Bool true) (Bool true) (of_Z 100) (of_Z 160))
    as (Hr & _ & _ & _ & _ & Hp & _).
  - vm_compute. discriminate.
  - vm_compute. discriminate.
  - vm_compute. reflexivity.
  - split; [exact Hr | exact Hp].
Defined.


Lemma lifecycle_noops_witness :
  State.restart (Bool true) (of_Z 5) Sample.playing = Sample.playing.
Proof.
  apply (StateMore.lifecycle_noops Sample.playing (Bool true) (Bool true) (of_Z 5) (of_Z 5)).
  vm_compute. reflexivity.
Defined.

Lemma set_registers_witness :
  fst (State.setTransition State.MENU false State.initial) = State.initial.
Proof.
  apply (StateMore.set_registers State.initial State.MENU 1%nat "x" false).
  reflexivity.
Defined.

Lemma frame_loop_witness :
  State.isRunning (State.frame (of_Z 16) Sample.playing) = true.
Proof.
  apply (StateMore.frame_loop Sample.playing (of_Z 16) Undefined 0).
  vm_compute. reflexivity.
Defined.

(** * More on the pointer *)

Module PointerMore.
Import Pointer.

(** X11. The contact size [setEvent] gives the pointer.  For a native
    pointer event (the device has pointer events and the event is one) the
    size is the event's [width] and [height] as they are, [undefined] when
    the event has none, and [isNormalized] is false.  Otherwise
    [isNormalized] is true and the size is twice the touch radius when the
    event has a [radiusX], and 1 by 1 when it has none. *)
Theorem setEvent_size (host : Host) (event : Event) (clientX clientY pointerId : value)
    (this : Pointer) :
  let p := setEvent host event clientX clientY pointerId this in
  (device_PointerEvent host = true -> e_isPointerEvent event = true ->
     isNormalized p = Bool false /\
     width p = read (e_width event) /\ height p = read (e_height event)) /\
  (device_PointerEvent host = false \/ e_isPointerEvent event = false ->
     isNormalized p = Bool true /\
     (forall rx, e_radiusX event = Some rx ->
        width p = Num (rx * Q2Qc 2) /\
        height p = match e_radiusY event with
                   | Some ry => Num (Q2Qc 2 * ry)
                   | None => NaN
                   end) /\
     (e_radiusX event = None -> width p = Num 1 /\ height p = Num 1)).
Proof.
  cbn. split.
  - intros -> ->. cbn. auto.
  - intros Hn.
    assert (Hb : negb (device_PointerEvent host)
                 || device_PointerEvent host && negb (e_isPointerEvent event) = true).
    { destruct Hn as [-> | ->]; destruct (device_PointerEvent host); reflexivity. }
    rewrite Hb. cbn. split; [reflexivity |]. split.
    + intros rx ->. cbn. destruct (e_radiusY event); auto.
    + intros ->. auto.
Qed.

(** X12. [setEvent] writes the wheel fields only for a wheel event: after an
    event of any other type, [deltaMode], [deltaX] and [deltaY] are what the
    pointer held before, so the values of an earlier wheel event stay on the
    reused pointer. *)
Theorem setEvent_keeps_wheel_fields (host : Host) (wheel other : Event)
    (x1 y1 id1 x2 y2 id2 : value) (this : Pointer) :
  e_type other <> "wheel"%string ->
  let p := setEvent host other x2 y2 id2 this in
  (deltaMode p = deltaMode this /\ deltaX p = deltaX this /\ deltaY p = deltaY this) /\
  (e_type wheel = "wheel"%string ->
   deltaY (setEvent host other x2 y2 id2 (setEvent host wheel x1 y1 id1 this)) =
     scale_by wheel_unit (e_wheelDelta wheel) /\
   deltaMode (setEvent host other x2 y2 id2 (setEvent host wheel x1 y1 id1 this)) = Num 1).
Proof.
  intros Ho. cbn. rewrite (bool_decide_eq_false_2 _ Ho). cbn.
  split; [auto |]. intros Hw. rewrite (bool_decide_eq_true_2 _ Hw). auto.
Qed.

(** X13. The horizontal scroll of a wheel event: [deltaX] is -1/40 times
    [wheelDeltaX] when the event has a [wheelDeltaX] other than 0, and the
    event's own [deltaX] otherwise ([undefined] when it has none);
    [deltaMode] is 1. *)
Theorem setEvent_wheel_deltaX (host : Host) (event : Event) (clientX clientY pointerId : value)
    (this : Pointer) :
  e_type event = "wheel"%string ->
  let p := setEvent host event clientX clientY pointerId this in
  deltaMode p = Num 1 /\
  (forall w, e_wheelDeltaX event = Some w -> w <> 0 ->
     deltaX p = Num (Q2Qc (-1 # 40) * w)) /\
  (e_wheelDeltaX event = Some 0 \/ e_wheelDeltaX event = None ->
     deltaX p = read (e_deltaX event)).
Proof.
  intros Hw. cbn. rewrite (bool_decide_eq_true_2 _ Hw). cbn.
  split; [reflexivity |]. split.
  - intros w -> Hne. cbn. rewrite decide_False by exact Hne. cbn.
    rewrite wheel_unit_value. reflexivity.
  - intros [-> | ->]; reflexivity.
Qed.

(** X14. What else [setEvent] stores: the event and its type; the button,
    0 when the event has none; [isPrimary], true when the event does not say;
    the client coordinates, 0 in place of a missing or zero one, while the
    local coordinates are computed from the arguments as they were passed;
    the screen coordinates, which are the local ones, and the world
    coordinates computed from them.  [gameX], [gameY], [gameLocalX] and
    [gameLocalY] are never written. *)
Theorem setEvent_fields (host : Host) (ev : Event) (x y pointerId : value)
    (this : Pointer) :
  let p := setEvent host ev x y pointerId this in
  event p = Some ev /\ type p = Str (e_type ev) /\
  button p = match e_button ev with
             | Some k => if decide (k = 0) then Num 0 else Num k
             | None => Num 0
             end /\
  isPrimary p = Bool (default true (e_isPrimary ev)) /\
  clientX p = (if truthy x then x else Num 0) /\
  clientY p = (if truthy y then y else Num 0) /\
  pos p = globalToLocal host x y /\
  (gameScreenX p, gameScreenY p) = globalToLocal host x y /\
  (gameWorldX p, gameWorldY p) =
    localToWorld host (fst (globalToLocal host x y)) (snd (globalToLocal host x y)) /\
  gameX p = gameX this /\ gameY p = gameY this /\
  gameLocalX p = gameLocalX this /\ gameLocalY p = gameLocalY this.
Proof.
  cbn. repeat split.
  - unfold js_or, read. destruct (e_button ev) as [k |]; cbn; [| reflexivity].
    destruct (decide (k = 0)) as [-> | Hk]; reflexivity.
  - destruct (e_isPrimary ev); reflexivity.
  - destruct (globalToLocal host x y); reflexivity.
  - destruct (localToWorld host _ _); reflexivity.
Qed.

End PointerMore.

Lemma setEvent_size_witness :
  Pointer.isNormalized
    (Pointer.setEvent Sample.host (Sample.wheel_event 80) (Num 0) (Num 0) (Num 0) Sample.pointer)
  = Bool true.
Proof.
  apply (PointerMore.setEvent_size Sample.host (Sample.wheel_event 80) (Num 0) (Num 0) (Num 0)
           Sample.pointer).
  right. reflexivity.
Defined.

Lemma setEvent_wheel_deltaX_witness :
  Pointer.deltaMode
    (Pointer.setEvent Sample.host (Sample.wheel_event 80) (Num 0) (Num 0) (Num 0) Sample.pointer)
  = Num 1.
Proof.
  apply (PointerMore.setEvent_wheel_deltaX Sample.host (Sample.wheel_event 80) (Num 0) (Num 0)
           (Num 0) Sample.pointer).
  reflexivity.
Defined.

Lemma setEvent_keeps_wheel_fields_witness :
  Pointer.deltaY
    (Pointer.setEvent Sample.host Sample.move_event (Num 1) (Num 1) (Num 0)
       (Pointer.setEvent Sample.host (Sample.wheel_event 80) (Num 0) (Num 0) (Num 0)
          Sample.pointer)) =
  scale_by Pointer.wheel_unit (Some (of_Z 80)).
Proof.
  apply (PointerMore.setEvent_keeps_wheel_fields Sample.host (Sample.wheel_event 80)
           Sample.move_event (Num 0) (Num 0) (Num 0) (Num 1) (Num 1) (Num 0) Sample.pointer).
  - discriminate.
  - reflexivity.
Defined.

(** * More on the body *)

Section BodyShapes.
Context {S : Type} `{Body.Shapes S}.
Import Body.

Lemma updateBounds_onBodyUpdate (b : Body S) :
  onBodyUpdate (updateBounds b) = onBodyUpdate b.
Proof.
  unfold updateBounds. destruct (shapes b) as [| s0 rest] eqn:Hs.
  - destruct (onBodyUpdate b) eqn:Hc; cbn; auto.
  - match goal with |- context [fold_left ?f rest ?b0] =>
      destruct (grow_self rest b0) as (_ & _ & _ & Hcb) end.
    cbn in Hcb. destruct (onBodyUpdate _) eqn:Hc; cbn; congruence.
Qed.

Lemma addShape_shapes (shape : S) (batchInsert : value) (b : Body S) :
  shapes (fst (addShape shape batchInsert b)) = shapes b ++ [stored shape].
Proof.
  unfold addShape. destruct (decide (batchInsert = Bool true)); cbn [fst].
  - reflexivity.
  - rewrite updateBounds_shapes. reflexivity.
Qed.

Lemma getShape_at (n : nat) (b : Body S) :
  getShape (Some (of_Z (Z.of_nat n))) b = shapes b !! n.
Proof.
  unfold getShape, num_or.
  destruct (decide (of_Z (Z.of_nat n) = 0)) as [Hz | Hz].
  - assert (n = 0%nat) as ->.
    { apply Qc_eq_Qeq in Hz. unfold of_Z, Q2Qc in Hz; cbn [this] in Hz.
      rewrite !Qred_correct in Hz. change 0%Q with (inject_Z 0) in Hz.
      rewrite inject_Z_injective in Hz. lia. }
    reflexivity.
  - assert (Hn : Qnum (of_Z (Z.of_nat n)) = Z.of_nat n /\ Qden (of_Z (Z.of_nat n)) = 1%positive).
    { unfold of_Z, Q2Qc; cbn [this]. unfold Qred, inject_Z; cbn [Qnum Qden].
      pose proof (Z.ggcd_gcd (Z.of_nat n) 1) as Hg.
      pose proof (Z.ggcd_correct_divisors (Z.of_nat n) 1) as Hd.
      destruct (Z.ggcd (Z.of_nat n) 1) as [g [aa bb]]. cbn in *.
      rewrite Z.gcd_1_r in Hg. subst g. destruct Hd as [Ha Hb].
      rewrite !Z.mul_1_l in *. subst aa bb. auto. }
    destruct Hn as [Hnum Hden]. rewrite Hnum, Hden.
    rewrite decide_True by (split; [reflexivity | lia]).
    rewrite Nat2Z.id. reflexivity.
Qed.

(** X15. [addShape] appends: whatever [batchInsert] is, the shape list after
    the call is the old list followed by the new shape (turned into a
    polygon when it is a rectangle), the call returns the old length plus
    one, and [getShape] at the returned length minus one gives the shape just
    stored, while every earlier index still gives what it gave before. *)
Theorem addShape_appends (shape : S) (batchInsert : value) (b : Body S) :
  shapes (fst (addShape shape batchInsert b)) = shapes b ++ [stored shape] /\
  snd (addShape shape batchInsert b) = Datatypes.S (length (shapes b)) /\
  getShape (Some (of_Z (Z.of_nat (snd (addShape shape batchInsert b) - 1))))
           (fst (addShape shape batchInsert b)) = Some (stored shape) /\
  (forall i, (i < length (shapes b))%nat ->
     getShape (Some (of_Z (Z.of_nat i))) (fst (addShape shape batchInsert b)) =
     getShape (Some (of_Z (Z.of_nat i))) b).
Proof.
  assert (Hlen : snd (addShape shape batchInsert b) = Datatypes.S (length (shapes b))).
  { pose proof (addShape_shapes shape batchInsert b) as Hs.
    unfold addShape in *. cbn [fst snd] in *. rewrite Hs, length_app. cbn. lia. }
  split; [apply addShape_shapes |]. split; [exact Hlen |]. split.
  - rewrite Hlen, getShape_at, addShape_shapes.
    replace (Datatypes.S (length (shapes b)) - 1)%nat with (length (shapes b) + 0)%nat by lia.
    rewrite lookup_app_r by lia.
    replace (length (shapes b) + 0 - length (shapes b))%nat with 0%nat by lia. reflexivity.
  - intros i Hi. rewrite !getShape_at, addShape_shapes. apply lookup_app_l. exact Hi.
Qed.

Lemma array_remove_lookup (l : list S) (i : nat) (s : S) :
  NoDup l -> l !! i = Some s -> array_remove l s = delete i l.
Proof.
  revert i. induction l as [| x l IH]; intros i Hnd Hi; [discriminate |].
  apply NoDup_cons in Hnd as [Hx Hnd]. cbn [array_remove].
  destruct i as [| i]; cbn in Hi.
  - injection Hi as ->. rewrite decide_True by reflexivity. reflexivity.
  - rewrite decide_False.
    + cbn. f_equal. apply IH; assumption.
    + intros ->. apply Hx. eapply list_elem_of_lookup_2. exact Hi.
Qed.

(** X16. [removeShapeAt(index)]: at an index that holds a shape, in a list
    without repeated objects, exactly that shape is removed, the others keep
    their order, and the call returns the old length minus one; at an index
    beyond the list nothing is removed.  In both cases the bounds are
    recomputed. *)
Theorem removeShapeAt_index (i : nat) (b : Body S) :
  NoDup (shapes b) ->
  (forall s, shapes b !! i = Some s ->
     shapes (fst (removeShapeAt (Some (of_Z (Z.of_nat i))) b)) = delete i (shapes b) /\
     snd (removeShapeAt (Some (of_Z (Z.of_nat i))) b) = (length (shapes b) - 1)%nat) /\
  (shapes b !! i = None ->
     shapes (fst (removeShapeAt (Some (of_Z (Z.of_nat i))) b)) = shapes b /\
     snd (removeShapeAt (Some (of_Z (Z.of_nat i))) b) = length (shapes b)) /\
  bounds_ok (fst (removeShapeAt (Some (of_Z (Z.of_nat i))) b)).
Proof.
  intros Hnd. unfold removeShapeAt. rewrite getShape_at. unfold removeShape.
  cbn [fst snd]. split; [| split].
  - intros s Hs. rewrite Hs, updateBounds_shapes. cbn [shapes set_shapes].
    rewrite (array_remove_lookup _ i s) by assumption.
    split; [reflexivity |]. rewrite length_delete by eauto. reflexivity.
  - intros Hs. rewrite Hs, updateBounds_shapes. split; reflexivity.
  - apply updateBounds_ok.
Qed.

Lemma batch_frame {A : Type} (conv : A -> S) (l : list A) : forall b : Body S,
  let b' := fold_left (fun acc x => fst (addShape (conv x) (Bool true) acc)) l b in
  fired b' = fired b /\ onBodyUpdate b' = onBodyUpdate b /\ self b' = self b.
Proof.
  induction l as [| x l IH]; intros b; cbn [fold_left]; [auto |].
  destruct (IH (fst (addShape (conv x) (Bool true) b))) as (-> & -> & ->).
  rewrite addShape_batch. auto.
Qed.

(** X17. Notifications.  [onBodyUpdate] is called once per [updateBounds]:
    the constructor, however many shapes it is given, calls it exactly once,
    after the last shape, with the final rectangle (and not at all without a
    shape list); [addShape] calls it once unless [batchInsert] is true, and
    then not at all; [removeShape] calls it once also when nothing was
    removed. *)
Theorem notifications (E : Engine) (parent : Renderable) (l : list S) (f : Callback)
    (shape : S) (batchInsert : value) (gone : option S) (b : Body S) :
  fired (constructor E parent None (Some f)) = [] /\
  fired (constructor E parent (Some l) (Some f)) =
    [(f, self (constructor E parent (Some l) (Some f)))] /\
  fired (constructor E parent (Some l) None) = [] /\
  fired (fst (addShape shape (Bool true) b)) = fired b /\
  (batchInsert <> Bool true -> onBodyUpdate b = Some f ->
     fired (fst (addShape shape batchInsert b)) =
       fired b ++ [(f, self (fst (addShape shape batchInsert b)))]) /\
  (onBodyUpdate b = Some f ->
     fired (fst (removeShape gone b)) = fired b ++ [(f, self (fst (removeShape gone b)))]).
Proof.
  split; [reflexivity |]. split; [| split; [| split; [| split]]].
  - unfold constructor. rewrite updateBounds_fired.
    destruct (batch_frame clone l (fresh E parent (Some f))) as (-> & -> & _). reflexivity.
  - unfold constructor. rewrite updateBounds_fired.
    destruct (batch_frame clone l (fresh E parent None)) as (-> & -> & _). reflexivity.
  - rewrite addShape_batch. reflexivity.
  - intros Hne Hf. rewrite addShape_updates by exact Hne.
    rewrite updateBounds_fired. cbn [onBodyUpdate fired set_shapes]. rewrite Hf. reflexivity.
  - intros Hf. unfold removeShape. cbn [fst]. rewrite updateBounds_fired.
    destruct gone; cbn [onBodyUpdate fired set_shapes]; rewrite Hf; reflexivity.
Qed.

Lemma find_rigidBody_snoc (id : string) (l : list RigidBody) (r : RigidBody) :
  find_rigidBody id (l ++ [r]) =
  if decide (rb_name r = id) then Some r else find_rigidBody id l.
Proof. unfold find_rigidBody. rewrite fold_left_app. reflexivity. Qed.

Lemma find_rigidBody_last (id : string) (l : list RigidBody) :
  find_rigidBody id l = last (filter (fun r => rb_name r = id) l).
Proof.
  induction l as [| r l IH] using rev_ind; [reflexivity |].
  rewrite find_rigidBody_snoc, filter_app, IH.
  destruct (decide (rb_name r = id)) as [Hr | Hr].
  - rewrite filter_cons_True by exact Hr. rewrite filter_nil, last_snoc. reflexivity.
  - rewrite filter_cons_False by exact Hr. rewrite filter_nil, app_nil_r. reflexivity.
Qed.

(** X18. [addShapesFromJSON] on a well-formed document.  In the flat format
    (a document without a key [rigidBodies]) the entry under [id] adds one
    polygon per element, in the order of the entry, each built at (0, 0)
    from the element's coordinates taken two by two.  In the rigid-body
    format the last rigid body named [id] adds one polygon per polygon of
    the body, its points mirrored vertically and scaled, and after them one
    ellipse per circle, centred at the mirrored and scaled centre and with
    the scaled diameter as both axes.  Every shape is stored as [addShape]
    stores it, behind the shapes the body had, and the call returns the new
    length of the list.  When no rigid body is named [id], or when the flat
    document has no key [id] and [id] names no property that every object
    inherits, the call throws an error whose message contains [id] and the
    body is as it was. *)
Theorem addShapesFromJSON_result (json : JSON) (id : string) (scale : option num)
    (b : Body S) :
  let k := match scale with Some k => num_or k 1 | None => 1 end in
  match json with
  | PhysicsEditor entries =>
      entries !! "rigidBodies"%string = None ->
      match entries !! id with
      | Some data =>
          snd (addShapesFromJSON json id scale b) = Ok (length (shapes b) + length data)%nat /\
          shapes (fst (addShapesFromJSON json id scale b)) =
            shapes b
            ++ map (fun d => stored (new_Polygon 0 0 (points_of_flat (pe_shape d)))) data
      | None =>
          id ∉ inherited_keys ->
          exists msg, addShapesFromJSON json id scale b = (b, Throw (Error msg)) /\
                      includes id msg
      end
  | PhysicsBodyEditor rigidBodies =>
      match last (filter (fun r => rb_name r = id) rigidBodies) with
      | Some data =>
          snd (addShapesFromJSON json id scale b) =
            Ok (length (shapes b) + length (rb_polygons data) + length (rb_circles data))%nat /\
          shapes (fst (addShapesFromJSON json id scale b)) =
            shapes b
            ++ map (fun poly =>
                      stored (new_Polygon 0 0
                                (map (fun point =>
                                        vscale (new_Vector2d (Some (vx point))
                                                             (Some (1 - vy point))) k)
                                     poly)))
                   (rb_polygons data)
            ++ map (fun circle =>
                      stored (new_Ellipse (c_cx circle * k) ((1 - c_cy circle) * k)
                                          (c_r circle * of_Z 2 * k)
                                          (c_r circle * of_Z 2 * k)))
                   (rb_circles data)
      | None =>
          exists msg, addShapesFromJSON json id scale b = (b, Throw (Error msg)) /\
                      includes id msg
      end
  end.
Proof.
  intros k. subst k. unfold addShapesFromJSON. destruct json as [entries | rigidBodies].
  - intros _. destruct (entries !! id) as [data |]; cbn [fst snd].
    + rewrite updateBounds_shapes, batch_shapes, length_app, length_map.
      split; reflexivity.
    + intros _. eexists. split; [reflexivity |].
      exists "me.Body: Identifier ("%string,
             ") undefined for the given PhysicsEditor JSON object)"%string.
      reflexivity.
  - rewrite find_rigidBody_last.
    destruct (last (filter (fun r => rb_name r = id) rigidBodies)) as [data |];
      cbn [fst snd].
    + rewrite updateBounds_shapes, !batch_shapes, !length_app, !length_map.
      cbn [shapes set_self]. split; [reflexivity |].
      rewrite <- app_assoc. reflexivity.
    + eexists. split; [reflexivity |].
      exists "me.Body: Identifier ("%string,
             ") undefined for the given PhysicsEditor JSON object)"%string.
      reflexivity.
Qed.

(** X19. After [destroy()] the body has no shapes, no ancestor and no
    callback: [updateBounds] then changes nothing, [respondToCollision]
    throws a TypeError and leaves the body as it is, and [update] throws a
    TypeError as well, after the velocity has been recomputed. *)
Theorem destroy_severs (tick : num) (dt : value) (overlap : Vector2d) (b : Body S) :
  shapes (destroy b) = [] /\ ancestor (destroy b) = None /\
  onBodyUpdate (destroy b) = None /\
  updateBounds (destroy b) = destroy b /\
  (exists what, respondToCollision overlap (destroy b) = (destroy b, Throw (TypeError what))) /\
  (exists what, snd (update tick dt (destroy b)) = Throw (TypeError what)) /\
  fst (update tick dt (destroy b)) = computeVelocity tick (destroy b).
Proof.
  split; [reflexivity |]. split; [reflexivity |]. split; [reflexivity |].
  split; [reflexivity |]. split; [eexists; reflexivity |].
  destruct (computeVelocity_constants tick (destroy b)) as (_ & _ & _ & Ha).
  unfold update. generalize dependent (computeVelocity tick (destroy b)). intros c Ha.
  change (ancestor (destroy b)) with (@None Renderable) in Ha. rewrite Ha.
  split; [eexists; reflexivity | reflexivity].
Qed.

End BodyShapes.

Section BodyMotion.
Context {S : Type} `{Body.Shapes S}.
Import Body.

Lemma clamp_within (v low high : num) :
  low <= high -> low <= clamp v low high /\ clamp v low high <= high.
Proof. intros Hlh. unfold clamp. cases; split; qc. Qed.

Lemma clamp_inside (v low high : num) :
  low <= v -> v <= high -> clamp v low high = v.
Proof. intros Hl Hh. unfold clamp. cases; try reflexivity; exfalso; qc. Qed.

(** The settings through the first three steps of [computeVelocity]. *)
Lemma steps_settings (tick : num) (b : Body S) :
  same_settings b (cap_y (friction_phase tick (gravity_phase tick b))).
Proof.
  eauto using same_settings_trans, gravity_phase_settings, friction_phase_settings,
    cap_y_settings.
Qed.

(** X20. The cap.  With a max velocity that is not negative on either axis,
    the velocity after [update] lies within the cap on both axes, whatever
    the velocity, gravity, friction and tick were. *)
Theorem update_caps (tick : num) (dt : value) (b : Body S) :
  0 <= vx (maxVel b) -> 0 <= vy (maxVel b) ->
  - vx (maxVel b) <= vx (vel (fst (update tick dt b))) /\
  vx (vel (fst (update tick dt b))) <= vx (maxVel b) /\
  - vy (maxVel b) <= vy (vel (fst (update tick dt b))) /\
  vy (vel (fst (update tick dt b))) <= vy (maxVel b).
Proof.
  intros Hx Hy. destruct (update_body tick dt b) as (-> & _).
  rewrite computeVelocity_phases, cap_x_vx, cap_x_vy, cap_y_vx, cap_y_vy.
  destruct (steps_settings tick b) as (_ & -> & _).
  destruct (same_settings_trans _ _ _ (gravity_phase_settings tick b)
              (friction_phase_settings tick (gravity_phase tick b))) as (_ & -> & _).
  set (w := vel (friction_phase tick (gravity_phase tick b))). clearbody w.
  assert (Hlx : - vx (maxVel b) <= vx (maxVel b)) by qc.
  assert (Hly : - vy (maxVel b) <= vy (maxVel b)) by qc.
  pose proof (clamp_within (vx w) _ _ Hlx) as [Hx1 Hx2].
  pose proof (clamp_within (vy w) _ _ Hly) as [Hy1 Hy2].
  destruct (decide (vx w <> 0)) as [Hvx | Hvx], (decide (vy w <> 0)) as [Hvy | Hvy].
  all: try (apply dec_stable in Hvx; rewrite Hvx).
  all: try (apply dec_stable in Hvy; rewrite Hvy).
  all: repeat split; try assumption; qc.
Qed.

(** X21. [update] on a body with an ancestor moves the ancestor by the new
    velocity, in one addition per axis, and returns whether that velocity is
    other than zero; when it returns false the ancestor is where it was. *)
Theorem update_moves (tick : num) (dt : value) (b : Body S) (a : Renderable) :
  ancestor b = Some a ->
  let b' := fst (update tick dt b) in
  ancestor b' = Some {| r_pos := vadd (r_pos a) (vel b');
                        r_width := r_width a; r_height := r_height a |} /\
  snd (update tick dt b) = Ok (bool_decide (vx (vel b') <> 0 \/ vy (vel b') <> 0)) /\
  (snd (update tick dt b) = Ok false -> ancestor b' = Some a).
Proof.
  intros Ha b'. subst b'.
  destruct (computeVelocity_constants tick b) as (_ & _ & _ & Hanc).
  rewrite Ha in Hanc. unfold update.
  generalize dependent (computeVelocity tick b). intros c Hanc. rewrite Hanc.
  cbn [fst snd ancestor vel set_ancestor].
  split; [reflexivity |]. split; [reflexivity |].
  destruct a as [[px py] w h]. destruct (vel c) as [ux uy]. cbn.
  intros Hr. injection Hr as Hr. apply bool_decide_eq_false_1 in Hr.
  assert (ux = 0) as -> by (destruct (decide (ux = 0)); [assumption | tauto]).
  assert (uy = 0) as -> by (destruct (decide (uy = 0)); [assumption | tauto]).
  unfold vadd. cbn [vx vy].
  assert (px + 0 = px) as -> by qc. assert (py + 0 = py) as -> by qc. reflexivity.
Qed.

End BodyMotion.

Lemma update_caps_witness :
  vx (Body.vel (fst (Body.update 1 Undefined (Sample.slider 1 (of_Z 5000))))) <= of_Z 1000.
Proof.
  destruct (update_caps 1 Undefined (Sample.slider 1 (of_Z 5000))) as (_ & Hx & _);
    [numeral | numeral |].
  exact Hx.
Defined.

Lemma update_moves_witness :
  snd (Body.update 1 Undefined (Sample.slider 1 (of_Z 3))) = Ok true.
Proof.
  destruct (update_moves 1 Undefined (Sample.slider 1 (of_Z 3)) Sample.sprite) as (_ & Hr & _).
  - reflexivity.
  - rewrite Hr. vm_compute. reflexivity.
Defined.

Section BodyFlight.
Context {S : Type} `{Body.Shapes S}.
Import Body.

Lemma later_steps_flags (tick : num) (b : Body S) :
  falling (cap_x (cap_y (friction_phase tick b))) = falling b /\
  jumping (cap_x (cap_y (friction_phase tick b))) = jumping b.
Proof.
  unfold cap_x. destruct (decide _); cbn [falling jumping set_vel];
    unfold cap_y; destruct (decide _); cbn [falling jumping set_vel];
    unfold friction_phase; destruct (decide _); cbn [falling jumping set_vel]; auto.
Qed.

Lemma friction_phase_vy_sign (tick : num) (b : Body S) :
  0 <= vy (friction b) * tick -> 0 <= vy (vel b) ->
  0 <= vy (vel (friction_phase tick b)).
Proof.
  intros Hf Hv. unfold friction_phase. destruct (decide _); [| exact Hv].
  cbn [vel set_vel]. rewrite applyFriction_axes. cbn [vy].
  unfold friction_axis. set (d := vy (friction b) * tick) in *. clearbody d.
  cases; qc.
Qed.

Lemma sign_pos (g : num) : 0 < g -> sign g = 1.
Proof. intros Hg. unfold sign. rewrite decide_True by exact Hg. reflexivity. Qed.

(** One [computeVelocity] step of a body that gravity pulls down and that
    is not moving up. *)
Lemma computeVelocity_falls (tick : num) (b : Body S) :
  0 < gravity b -> 0 < gravity b * tick -> 0 <= vy (friction b) * tick ->
  0 <= vy (vel b) -> 0 <= vy (maxVel b) ->
  falling (computeVelocity tick b) = true /\
  jumping (computeVelocity tick b) = false /\
  0 <= vy (vel (computeVelocity tick b)).
Proof.
  intros Hg Hgt Hft Hv Hm.
  rewrite computeVelocity_phases.
  destruct (later_steps_flags tick (gravity_phase tick b)) as [-> ->].
  rewrite cap_x_vy, cap_y_vy.
  destruct (friction_phase_settings tick (gravity_phase tick b)) as (_ & -> & _).
  destruct (gravity_phase_settings tick b) as (Hfr & -> & _).
  assert (Hgp : falling (gravity_phase tick b) = true /\
                jumping (gravity_phase tick b) = false /\
                0 <= vy (vel (gravity_phase tick b))).
  { unfold gravity_phase.
    rewrite decide_True by (intros E; rewrite E in Hg; revert Hg; numeral).
    cbn [falling jumping vel vy vx set_vel set_flags gravity].
    rewrite (sign_pos _ Hg).
    rewrite bool_decide_eq_true_2 by qc. repeat split. qc. }
  destruct Hgp as (-> & -> & Hv1).
  split; [reflexivity |]. split; [reflexivity |].
  assert (Hv2 : 0 <= vy (vel (friction_phase tick (gravity_phase tick b)))).
  { apply friction_phase_vy_sign; [rewrite Hfr; exact Hft | exact Hv1]. }
  set (v2 := vy (vel (friction_phase tick (gravity_phase tick b)))) in *. clearbody v2.
  unfold clamp. cases; qc.
Qed.

(** X22. Falling.  A body with positive gravity, with a vertical velocity
    and a vertical cap that are not negative, updated with ticks for each of
    which the gravity delta [gravity * tick] is positive and the friction
    delta [friction.y * tick] is not negative: after every [update], from
    the first on, [falling] is true and [jumping] is false, and the vertical
    velocity is not negative. *)
Theorem falling_under_gravity (ticks : list num) (b : Body S) :
  0 < gravity b -> 0 <= vy (vel b) -> 0 <= vy (maxVel b) ->
  Forall (fun tick => 0 < gravity b * tick /\ 0 <= vy (friction b) * tick) ticks ->
  ticks <> [] ->
  falling (updates ticks b) = true /\
  jumping (updates ticks b) = false /\
  0 <= vy (vel (updates ticks b)).
Proof.
  intros Hg Hv Hm Hticks Hne.
  assert (Hinv : forall l,
            Forall (fun tick => 0 < gravity b * tick /\ 0 <= vy (friction b) * tick) l ->
            0 <= vy (vel (updates l b)) /\
            (l <> [] -> falling (updates l b) = true /\ jumping (updates l b) = false)).
  { induction l as [| tick l IH] using rev_ind; intros Hl.
    - split; [exact Hv | congruence].
    - apply Forall_app in Hl as [Hl Ht]. rewrite Forall_singleton in Ht.
      destruct Ht as [Hgt Hft].
      destruct (IH Hl) as [IHv _]. rewrite updates_snoc.
      destruct (updates_constants l b) as (Hfr & Hmx & Hgr).
      destruct (update_body tick Undefined (updates l b)) as (Hvel & _).
      destruct (computeVelocity_falls tick (updates l b)) as (Hfa & Hju & Hvy);
        rewrite ?Hfr, ?Hmx, ?Hgr; try assumption.
      rewrite Hvel. split; [exact Hvy |]. intros _.
      unfold update. generalize dependent (computeVelocity tick (updates l b)).
      intros c _ Hfa Hju _. destruct (ancestor c); cbn; auto. }
  destruct (Hinv ticks Hticks) as [Hvy Hfl]. destruct (Hfl Hne) as [Hfa Hju]. auto.
Qed.

(** X23. The flags in [computeVelocity].  With a gravity other than 0,
    [falling] says whether the velocity after gravity points the way gravity
    does, and [jumping] is cleared when it does and kept when it does not, so
    the two are never both true unless they were; with gravity 0 both flags
    are left alone.  [jumping] is never set. *)
Theorem computeVelocity_flags (tick : num) (b : Body S) :
  (gravity b <> 0 ->
     falling (computeVelocity tick b) =
       bool_decide (0 < (vy (vel b) + gravity b * tick) * sign (gravity b)) /\
     jumping (computeVelocity tick b) =
       (if falling (computeVelocity tick b) then false else jumping b)) /\
  (gravity b = 0 ->
     falling (computeVelocity tick b) = falling b /\
     jumping (computeVelocity tick b) = jumping b) /\
  (jumping (computeVelocity tick b) = true -> jumping b = true).
Proof.
  rewrite computeVelocity_phases.
  destruct (later_steps_flags tick (gravity_phase tick b)) as [-> ->].
  unfold gravity_phase. destruct (decide (gravity b <> 0)) as [Hg | Hg].
  - cbn [falling jumping vel vy vx set_vel set_flags gravity].
    split; [auto |]. split; [intros Hz; contradiction |].
    destruct (bool_decide _); [discriminate | auto].
  - split; [intros Hn; contradiction |]. auto.
Qed.

End BodyFlight.

Lemma addShape_appends_witness :
  snd (Body.addShape (Sample.box 8 1 1 2 2) Undefined Sample.two_boxes) = 3%nat /\
  Body.getShape (Some 0) (fst (Body.addShape (Sample.box 8 1 1 2 2) Undefined Sample.two_boxes)) =
  Body.getShape (Some 0) Sample.two_boxes.
Proof.
  destruct (addShape_appends (Sample.box 8 1 1 2 2) Undefined Sample.two_boxes)
    as (_ & Hl & _ & Hi).
  split.
  - rewrite Hl. vm_compute. reflexivity.
  - apply (Hi 0%nat). vm_compute. lia.
Defined.

Lemma removeShapeAt_index_witness :
  snd (Body.removeShapeAt (Some (of_Z (Z.of_nat 0))) Sample.two_boxes) = 1%nat.
Proof.
  assert (Hs : Body.shapes Sample.two_boxes =
               [(3%nat, snd (Sample.box 1 0 0 4 4)); (5%nat, snd (Sample.box 3 2 (-3) 6 5))])
    by (vm_compute; reflexivity).
  destruct (removeShapeAt_index 0 Sample.two_boxes) as (Hin & _).
  - rewrite Hs. apply NoDup_cons. split; [| apply NoDup_singleton].
    rewrite list_elem_of_singleton. intros E. apply (f_equal fst) in E. discriminate.
  - destruct (Hin (3%nat, snd (Sample.box 1 0 0 4 4))) as [_ Hn].
    + rewrite Hs. reflexivity.
    + rewrite Hn, Hs. reflexivity.
Defined.

Lemma notifications_witness :
  length (Body.fired (fst (Body.removeShape None Sample.two_boxes))) = 2%nat.
Proof.
  destruct (notifications Sample.engine Sample.sprite [] 7%nat (Sample.box 8 1 1 2 2)
              Undefined None Sample.two_boxes) as (_ & _ & _ & _ & _ & Hr).
  rewrite Hr by (vm_compute; reflexivity).
  rewrite length_app. vm_compute. reflexivity.
Defined.

Lemma addShapesFromJSON_result_witness :
  snd (Body.addShapesFromJSON Sample.shapesdef "banana" None
         (Body.constructor Sample.engine Sample.sprite None None)) = Ok 1%nat.
Proof.
  pose proof (addShapesFromJSON_result Sample.shapesdef "banana" None
                (Body.constructor Sample.engine Sample.sprite None None)) as Hr.
  cbv beta iota zeta delta [Sample.shapesdef] in Hr.
  specialize (Hr eq_refl).
  rewrite lookup_singleton in Hr.
  destruct Hr as [Hn _]. exact Hn.
Defined.

Lemma falling_under_gravity_witness :
  Body.falling (Body.updates [1; 1] Sample.faller) = true /\
  Body.jumping (Body.updates [1; 1] Sample.faller) = false.
Proof.
  assert (H1 : 0 < Body.gravity Sample.faller) by numeral.
  assert (H2 : 0 <= vy (Body.vel Sample.faller)) by numeral.
  assert (H3 : 0 <= vy (Body.maxVel Sample.faller)) by numeral.
  assert (H4 : 0 < Body.gravity Sample.faller * 1) by numeral.
  assert (H5 : 0 <= vy (Body.friction Sample.faller) * 1) by numeral.
  assert (H6 : Forall (fun tick : num =>
                         0 < Body.gravity Sample.faller * tick /\
                         0 <= vy (Body.friction Sample.faller) * tick) [1; 1]).
  { constructor; [split; assumption |]. constructor; [split; assumption |]. constructor. }
  assert (H7 : [1; 1] <> @nil num) by discriminate.
  destruct (falling_under_gravity [1; 1] Sample.faller H1 H2 H3 H6 H7) as (Hf & Hj & _).
  split; [exact Hf | exact Hj].
Defined.

Lemma computeVelocity_flags_witness :
  Body.jumping (Body.computeVelocity 1 Sample.faller) = false.
Proof.
  destruct (computeVelocity_flags 1 Sample.faller) as (_ & _ & Hj).
  destruct (Body.jumping (Body.computeVelocity 1 Sample.faller)) eqn:E; [| reflexivity].
  specialize (Hj eq_refl). vm_compute in Hj. discriminate.
Defined.

Section BodyContact.
Context {S : Type} `{Body.Shapes S}.
Import Body.

Lemma toInt32_range (z : Z) : (- 2 ^ 31 <= toInt32 z < 2 ^ 31)%Z.
Proof.
  unfold toInt32. change (2 ^ 32)%Z with 4294967296%Z. change (2 ^ 31)%Z with 2147483648%Z.
  pose proof (Z.mod_pos_bound z 4294967296 ltac:(lia)) as Hm.
  destruct (2147483648 <=? z mod 4294967296)%Z eqn:Hc.
  - apply Z.leb_le in Hc. lia.
  - apply Z.leb_gt in Hc. lia.
Qed.

(** What [respondToCollision] makes of the velocity on an axis with
    overlap, before the bounce. *)
Lemma corrected_integer (t : num) :
  exists n : Z, num_or (double_tilde t) 0 = of_Z n /\ (- 2 ^ 31 <= n < 2 ^ 31)%Z.
Proof.
  unfold num_or, double_tilde. destruct (decide (of_Z (toInt32 (trunc t)) = 0)) as [Hz | Hz].
  - exists 0%Z. split; [numeral | lia].
  - exists (toInt32 (trunc t)). split; [reflexivity | apply toInt32_range].
Qed.

(** X24. [respondToCollision] on a body with an ancestor moves the ancestor
    out by the overlap and leaves shapes and rectangle alone; the velocity
    on an axis without overlap is unchanged, so a zero overlap changes
    nothing at all; on an axis with overlap, and a bounce that is not
    positive, the new velocity is a whole number in the signed 32-bit
    range. *)
Theorem respondToCollision_moves (overlap : Vector2d) (b : Body S) (a : Renderable) :
  ancestor b = Some a ->
  let b' := fst (respondToCollision overlap b) in
  ancestor b' = Some {| r_pos := vsub (r_pos a) overlap;
                        r_width := r_width a; r_height := r_height a |} /\
  shapes b' = shapes b /\ self b' = self b /\
  (vx overlap = 0 -> vx (vel b') = vx (vel b)) /\
  (vy overlap = 0 -> vy (vel b') = vy (vel b)) /\
  (overlap = vec2 0 0 -> b' = b) /\
  (bounce b <= 0 -> vx overlap <> 0 ->
     exists n : Z, vx (vel b') = of_Z n /\ (- 2 ^ 31 <= n < 2 ^ 31)%Z) /\
  (bounce b <= 0 -> vy overlap <> 0 ->
     exists n : Z, vy (vel b') = of_Z n /\ (- 2 ^ 31 <= n < 2 ^ 31)%Z).
Proof.
  intros Ha b'. subst b'.
  destruct b as [rc anc sh cm cty [ux uy] ac fr mv bo gr fa ju cb fi].
  cbn in Ha. subst anc. destruct overlap as [ox oy].
  unfold respondToCollision.
  cbn [ancestor vel vx vy bounce gravity set_ancestor set_vel set_flags fst].
  destruct (decide (ox <> 0)) as [Hx | Hx], (decide (oy <> 0)) as [Hy | Hy];
    cbn [ancestor vel vx vy bounce gravity shapes self set_ancestor set_vel set_flags fst].
  all: split; [reflexivity |]; split; [reflexivity |]; split; [reflexivity |].
  all: split; [intros Hz; try contradiction; reflexivity |].
  all: split; [intros Hz; try contradiction; reflexivity |].
  all: split; [intros Hz; injection Hz as Hzx Hzy; try contradiction |].
  all: try (apply dec_stable in Hx; apply dec_stable in Hy; subst ox oy;
            destruct a as [[px py] w h]; unfold vsub; cbn [vx vy r_pos r_width r_height];
            assert (px - 0 = px) as -> by qc; assert (py - 0 = py) as -> by qc;
            reflexivity).
  all: split; intros Hb Hn; try contradiction.
  all: rewrite decide_False by (apply Qcle_not_lt; exact Hb); apply corrected_integer.
Qed.

Lemma computeVelocity_free (tick : num) (b : Body S) :
  gravity b = 0 -> friction b = vec2 0 0 ->
  - vx (maxVel b) <= vx (vel b) -> vx (vel b) <= vx (maxVel b) ->
  - vy (maxVel b) <= vy (vel b) -> vy (vel b) <= vy (maxVel b) ->
  computeVelocity tick b = b.
Proof.
  intros Hg Hf Hx1 Hx2 Hy1 Hy2. rewrite computeVelocity_phases.
  rewrite gravity_phase_off by exact Hg.
  assert (Hfp : friction_phase tick b = b).
  { unfold friction_phase. rewrite Hf. cbn [vx vy].
    rewrite decide_False; [reflexivity |]. intros [Hn | Hn]; apply Hn; reflexivity. }
  rewrite Hfp.
  assert (Hcy : cap_y b = b).
  { unfold cap_y. destruct (decide (vy (vel b) <> 0)); [| reflexivity].
    rewrite clamp_inside by assumption.
    destruct b as [rc anc sh cm cty [ux uy] ac fr mv bo gr fa ju cb fi]. reflexivity. }
  rewrite Hcy. unfold cap_x. destruct (decide (vx (vel b) <> 0)); [| reflexivity].
  rewrite clamp_inside by assumption.
  destruct b as [rc anc sh cm cty [ux uy] ac fr mv bo gr fa ju cb fi]. reflexivity.
Qed.

(** X25. Free motion.  A body without gravity and friction whose velocity
    lies within the cap keeps its velocity: [computeVelocity] changes
    nothing, and every call of [update] adds the velocity to the position of
    the ancestor once, so that after [n] calls the position is the one the
    ancestor started at with the velocity added [n] times, one addition
    after the other. *)
Theorem free_motion (ticks : list num) (b : Body S) (a : Renderable) :
  ancestor b = Some a ->
  gravity b = 0 -> friction b = vec2 0 0 ->
  - vx (maxVel b) <= vx (vel b) -> vx (vel b) <= vx (maxVel b) ->
  - vy (maxVel b) <= vy (vel b) -> vy (vel b) <= vy (maxVel b) ->
  vel (updates ticks b) = vel b /\
  ancestor (updates ticks b) =
    Some {| r_pos := Nat.iter (length ticks) (fun p => vadd p (vel b)) (r_pos a);
            r_width := r_width a; r_height := r_height a |} /\
  updates ticks b =
    set_ancestor b
      (Some {| r_pos := Nat.iter (length ticks) (fun p => vadd p (vel b)) (r_pos a);
               r_width := r_width a; r_height := r_height a |}).
Proof.
  intros Ha Hg Hf Hx1 Hx2 Hy1 Hy2.
  assert (Hall : updates ticks b =
    set_ancestor b
      (Some {| r_pos := Nat.iter (length ticks) (fun p => vadd p (vel b)) (r_pos a);
               r_width := r_width a; r_height := r_height a |})).
  { induction ticks as [| tick ticks IH] using rev_ind.
    - cbn [length updates fold_left].
      destruct b as [rc anc sh cm cty [ux uy] ac fr mv bo gr fa ju cb fi].
      cbn in Ha. subst anc. destruct a as [[px py] w h]. reflexivity.
    - rewrite updates_snoc, IH, length_app. cbn [length].
      replace (length ticks + 1)%nat with (Datatypes.S (length ticks)) by lia.
      rewrite Nat.iter_succ.
      set (p := Nat.iter (length ticks) (fun p => vadd p (vel b)) (r_pos a)). clearbody p.
      unfold update. rewrite computeVelocity_free by (cbn; assumption).
      destruct b as [rc anc sh cm cty [ux uy] ac fr mv bo gr fa ju cb fi].
      destruct a as [[px py] w h]. reflexivity. }
  rewrite Hall. split; [reflexivity |]. split; reflexivity.
Qed.

End BodyContact.

Lemma respondToCollision_moves_witness :
  Body.ancestor (fst (Body.respondToCollision (vec2 0 0) (Sample.slider 1 1))) =
  Body.ancestor (Sample.slider 1 1).
Proof.
  destruct (respondToCollision_moves (vec2 0 0) (Sample.slider 1 1) Sample.sprite)
    as (_ & _ & _ & _ & _ & Hz & _).
  - reflexivity.
  - rewrite Hz; reflexivity.
Defined.

Lemma free_motion_witness :
  Body.vel (Body.updates [1; 1; 1] (Sample.slider 0 (of_Z 3))) = vec2 (of_Z 3) 0.
Proof.
  destruct (free_motion [1; 1; 1] (Sample.slider 0 (of_Z 3)) Sample.sprite) as (Hv & _);
    [reflexivity | numeral | vm_compute; reflexivity | numeral | numeral | numeral | numeral |].
  rewrite Hv. reflexivity.
Defined.
